(** * The node builders of [src/parser/processors.js]

    A shallow embedding of the registry [processors] and of its builder
    functions, with the properties of the specification stated over it.

    - The builders run on an explicit store.  A builder receives its
      children, may allocate objects and arrays, may write a property of an
      object it was given, and returns a child or throws.  Objects are
      identified by their location in the store, so that two children naming
      the same object are seen to alias.
    - A child is what the tree walker passes and what a builder returns:
      token text, a reference to an object or an array, or [undefined] for a
      parameter without argument.  Numbers, booleans and [null] occur as
      values of properties only.
    - The properties of an object are those the source names, kept in the
      order in which they were written.
    - The source file has no strict-mode directive: a write to a property of
      a string is ignored, and octal escapes are read by [eval].
    - Of the runtime, what the builders call is modelled: conversion to
      string and to number, [BigInt], the four regular expressions of the
      source, [JSON.parse] behind its guard, and [eval].  [eval] decodes a
      text that is one string literal or one regular expression; any other
      text it runs as a program, which may write every object, assign [raw]
      and throw what it likes.  What a program does, and the syntax of
      regular-expression patterns, are left to the runtime and are
      parameters; a program that does not end has no outcome, and what is
      stated of [String] and [RegExp] on a program is stated of the runs
      that end. *)

From Stdlib Require Import ZArith NArith List String Ascii Bool Lia.
From Stdlib Require Import Floats.SpecFloat.
From stdpp Require Import base numbers list.

Local Open Scope Z_scope.
Local Open Scope list_scope.

(** ** Strings

    A JavaScript string is a sequence of UTF-16 code units. *)

Definition jsstring : Type := list N.

(** ASCII text of the source file, as code units. *)
Definition str (s : string) : jsstring :=
  map N_of_ascii (list_ascii_of_string s).

Coercion str : string >-> jsstring.

Definition jsstring_eqb (s t : jsstring) : bool := bool_decide (s = t).

Fixpoint starts_with (p s : jsstring) : bool :=
  match p, s with
  | [], _ => true
  | a :: p', b :: s' => N.eqb a b && starts_with p' s'
  | _ :: _, [] => false
  end.

(** [s.includes(p)]: [p] occurs in [s] as a contiguous run. *)
Fixpoint includes (p s : jsstring) : bool :=
  starts_with p s ||
  match s with
  | [] => false
  | _ :: s' => includes p s'
  end.

(** ** Values and the store *)

Abbreviation loc := nat.

(** What a builder is given and what it returns: [undefined] (also the value
    of a parameter with no argument), token text, or a reference to an
    object of the store. *)
Inductive child : Type :=
  | CUndefined
  | CString (s : jsstring)
  | CRef (l : loc).

(** What a property can hold. *)
Inductive value : Type :=
  | VChild (c : child)
  | VNull
  | VBool (b : bool)
  | VNumber (x : spec_float)
  | VBigInt (z : Z).

Coercion VChild : child >-> value.

Definition VStr (s : string) : value := VChild (CString (str s)).

(** The property names that occur in the source. *)
Inductive key : Type :=
  | k_type | k_elements | k_left | k_operator | k_right | k_body | k_value
  | k_raw | k_label | k_callee | k_arguments | k_test | k_consequent
  | k_alternate | k_expression | k_id | k_params | k_async | k_generator
  | k_object | k_property | k_computed | k_properties | k_prefix
  | k_argument | k_key | k_kind | k_method | k_shorthand | k_regex
  | k_pattern | k_flags | k_sourceType | k_expressions | k_declarations
  | k_init | k_name | k_source.

Global Instance key_eq_dec : EqDecision key.
Proof. solve_decision. Defined.

(** An object is a plain object, an array or a regular expression; each
    carries its own properties in insertion order. *)
Inductive class : Type :=
  | OPlain
  | OArray (elems : list child)
  | ORegExp (source flags : jsstring).

Record object : Type := mkObject {
  obj_class : class;
  obj_props : list (key * value)
}.

Abbreviation heap := (list object).

(** [o[k]] on own properties; no key of the source is inherited. *)
Fixpoint get_prop (k : key) (ps : list (key * value)) : value :=
  match ps with
  | [] => VChild CUndefined
  | (k', v) :: ps' => if bool_decide (k' = k) then v else get_prop k ps'
  end.

Fixpoint has_prop (k : key) (ps : list (key * value)) : bool :=
  match ps with
  | [] => false
  | (k', _) :: ps' => bool_decide (k' = k) || has_prop k ps'
  end.

(** [o[k] = v]: overwrite in place, or append a new property. *)
Fixpoint set_prop (k : key) (v : value) (ps : list (key * value))
  : list (key * value) :=
  match ps with
  | [] => [(k, v)]
  | (k', v') :: ps' =>
      if bool_decide (k' = k) then (k, v) :: ps' else (k', v') :: set_prop k v ps'
  end.

Definition write_prop (k : key) (v : value) (o : object) : object :=
  mkObject (obj_class o) (set_prop k v (obj_props o)).

(** ** Errors and the builder monad *)

(** The two errors the runtime raises under the builders, and whatever a
    text run by [eval] throws of its own, with its name. *)
Inductive error : Type :=
  | TypeError
  | SyntaxError
  | Thrown (name : jsstring).

(** The [name] property of the error object. *)
Definition error_name (e : error) : jsstring :=
  match e with
  | TypeError => str "TypeError"
  | SyntaxError => str "SyntaxError"
  | Thrown name => name
  end.

Inductive result (A : Type) : Type :=
  | Return (a : A)
  | Throw (e : error).

Arguments Return {A} a.
Arguments Throw {A} e.

Definition M (A : Type) : Type := heap -> result A * heap.

Definition ret {A} (a : A) : M A := fun h => (Return a, h).

Definition throw {A} (e : error) : M A := fun h => (Throw e, h).

Definition bind {A B} (m : M A) (f : A -> M B) : M B :=
  fun h =>
    match m h with
    | (Return a, h') => f a h'
    | (Throw e, h') => (Throw e, h')
    end.

Notation "'do' x <- m ; f" := (bind m (fun x => f))
  (at level 10, x name, m at level 100, f at level 200,
   format "'[v' 'do'  x  <-  m ; '/' f ']'").

Definition read {A} (f : heap -> A) : M A := fun h => (Return (f h), h).

(** A fresh object goes to the end of the store. *)
Definition alloc (o : object) : M child :=
  fun h => (Return (CRef (length h)), h ++ [o]).

(** An object literal [{ k1: v1, ... }]. *)
Definition new_object (ps : list (key * value)) : M child :=
  alloc (mkObject OPlain ps).

(** An array created by [filter], by a rest parameter or by []. *)
Definition new_array (elems : list child) : M child :=
  alloc (mkObject (OArray elems) []).

(** [target[k] = v].  Writing to [undefined] throws; writing to a string is
    ignored, the file not being in strict mode. *)
Definition assign (target : child) (k : key) (v : value) : M unit :=
  match target with
  | CUndefined => throw TypeError
  | CString _ => ret tt
  | CRef l => fun h => (Return tt, alter (write_prop k v) l h)
  end.

Definition append_elem (x : child) (o : object) : object :=
  match obj_class o with
  | OArray elems => mkObject (OArray (elems ++ [x])) (obj_props o)
  | _ => o
  end.

(** [arr.push(x)] *)
Definition push (arr x : child) : M unit :=
  match arr with
  | CRef l => fun h => (Return tt, alter (append_elem x) l h)
  | _ => throw TypeError
  end.

(** [target[k]] for a read. *)
Definition get (target : child) (k : key) : M value :=
  match target with
  | CUndefined => throw TypeError
  | CString _ => ret (VChild CUndefined)
  | CRef l =>
      read (fun h =>
        match h !! l with
        | Some o => get_prop k (obj_props o)
        | None => VChild CUndefined
        end)
  end.

(** ** Primitives of the runtime *)

(** [typeof c === 'string'] *)
Definition is_string (c : child) : bool :=
  match c with
  | CString _ => true
  | _ => false
  end.

(** [c === s] against a string literal: only the same string is equal. *)
Definition is_str (c : child) (s : jsstring) : bool :=
  match c with
  | CString t => jsstring_eqb t s
  | _ => false
  end.

(** The [flags] accessor of a regular expression lists the flags in a fixed
    order, whatever the order of the literal. *)
Definition flags_getter (flags : jsstring) : jsstring :=
  List.filter (fun c => bool_decide (c ∈ flags)) (str "dgimsuvy").

Fixpoint join (sep : jsstring) (parts : list jsstring) : jsstring :=
  match parts with
  | [] => []
  | [p] => p
  | p :: ps => p ++ sep ++ join sep ps
  end.

(** [ToString] as [RegExp.prototype.test] and unary plus apply it.  A plain
    object prints as [[object Object]], an array as its elements joined by
    commas ([undefined] printing as nothing), a regular expression as its
    literal.  An array met again inside itself prints as nothing; [seen]
    holds the arrays being printed, and [n] bounds their number. *)
Fixpoint ToString_depth (n : nat) (seen : list loc) (h : heap) (c : child)
  : jsstring :=
  match c with
  | CUndefined => str "undefined"
  | CString s => s
  | CRef l =>
      match h !! l with
      | Some (mkObject (OArray elems) _) =>
          match n with
          | O => []
          | S n' =>
              if bool_decide (l ∈ seen) then []
              else
                join (str ",")
                  (map (fun e => match e with
                                 | CUndefined => []
                                 | _ => ToString_depth n' (l :: seen) h e
                                 end) elems)
          end
      | Some (mkObject (ORegExp source flags) _) =>
          str "/" ++ source ++ str "/" ++ flags_getter flags
      | _ => str "[object Object]"
      end
  end.

Definition ToString (c : child) : M jsstring :=
  read (fun h => ToString_depth (length h) [] h c).

(** [/n$/.test(s)]: the last code unit is [n]. *)
Definition ends_with_n (s : jsstring) : bool :=
  match last s with
  | Some c => N.eqb c 110
  | None => false
  end.

(** [s.replace(/n$/, '')] *)
Definition strip_n (s : jsstring) : jsstring :=
  if ends_with_n s then removelast s else s.

(** [/&&|\|\||\?\?/.test(s)] *)
Definition has_logical_op (s : jsstring) : bool :=
  includes (str "&&") s || includes (str "||") s || includes (str "??") s.

(** [/--|\+\+/.test(s)] *)
Definition has_update_op (s : jsstring) : bool :=
  includes (str "--") s || includes (str "++") s.

(** [/^(true|false|null)$/.test(s)] *)
Definition is_keyword_literal (s : jsstring) : bool :=
  jsstring_eqb s (str "true") || jsstring_eqb s (str "false")
  || jsstring_eqb s (str "null").

(** [JSON.parse] on the three texts the test above lets through. *)
Definition JSON_parse (s : jsstring) : M value :=
  if jsstring_eqb s (str "true") then ret (VBool true)
  else if jsstring_eqb s (str "false") then ret (VBool false)
  else if jsstring_eqb s (str "null") then ret VNull
  else throw SyntaxError.

(** *** Numeric literals *)

(** White space and line terminators, as [StrWhiteSpaceChar]. *)
Definition is_space (c : N) : bool :=
  existsb (N.eqb c)
    [9; 10; 11; 12; 13; 32; 160; 5760; 8192; 8193; 8194; 8195; 8196; 8197;
     8198; 8199; 8200; 8201; 8202; 8232; 8233; 8239; 8287; 12288; 65279]%N.

Fixpoint drop_while {A} (p : A -> bool) (l : list A) : list A :=
  match l with
  | [] => []
  | a :: l' => if p a then drop_while p l' else l
  end.

Definition trim (s : jsstring) : jsstring :=
  rev (drop_while is_space (rev (drop_while is_space s))).

(** The value of a digit in a base up to 16, if it is one. *)
Definition digit_of (base : N) (c : N) : option N :=
  let d :=
    if (48 <=? c)%N && (c <=? 57)%N then Some (c - 48)%N
    else if (97 <=? c)%N && (c <=? 102)%N then Some (c - 87)%N
    else if (65 <=? c)%N && (c <=? 70)%N then Some (c - 55)%N
    else None in
  match d with
  | Some n => if (n <? base)%N then Some n else None
  | None => None
  end.

(** A non-empty run of digits to the end of the text. *)
Fixpoint digits_from (base : N) (acc : Z) (s : jsstring) : option Z :=
  match s with
  | [] => Some acc
  | c :: s' =>
      match digit_of base c with
      | Some d => digits_from base (acc * Z.of_N base + Z.of_N d) s'
      | None => None
      end
  end.

Definition all_digits (base : N) (s : jsstring) : option Z :=
  match s with
  | [] => None
  | _ => digits_from base 0 s
  end.

(** [0x], [0o] and [0b] literals: [None] if the text has no such prefix,
    else the value of the digits, if they are digits. *)
Definition non_decimal (s : jsstring) : option (option Z) :=
  match s with
  | z :: p :: ds =>
      if negb (N.eqb z 48) then None
      else if N.eqb p 120 || N.eqb p 88 then Some (all_digits 16 ds)
      else if N.eqb p 111 || N.eqb p 79 then Some (all_digits 8 ds)
      else if N.eqb p 98 || N.eqb p 66 then Some (all_digits 2 ds)
      else None
  | _ => None
  end.

(** An optional sign. *)
Definition signed (s : jsstring) : bool * jsstring :=
  match s with
  | c :: s' =>
      if N.eqb c 43 then (false, s')
      else if N.eqb c 45 then (true, s')
      else (false, s)
  | [] => (false, [])
  end.

(** [StringToBigInt]: [None] where [BigInt] throws a SyntaxError. *)
Definition StringToBigInt (s : jsstring) : option Z :=
  let t := trim s in
  match t with
  | [] => Some 0
  | _ =>
      match non_decimal t with
      | Some r => r
      | None =>
          let '(neg, ds) := signed t in
          option_map (fun z => if neg then - z else z) (all_digits 10 ds)
      end
  end.

(** The leading decimal digits of a text, and what follows them. *)
Fixpoint span_digits (s : jsstring) : list N * jsstring :=
  match s with
  | [] => ([], [])
  | c :: s' =>
      match digit_of 10 c with
      | Some d => let '(ds, r) := span_digits s' in (d :: ds, r)
      | None => ([], s)
      end
  end.

Definition digits_value (ds : list N) : Z :=
  fold_left (fun acc d => acc * 10 + Z.of_N d) ds 0.

(** An exponent part reaching the end of the text, or nothing. *)
Definition exponent_part (s : jsstring) : option Z :=
  match s with
  | [] => Some 0
  | c :: s' =>
      if N.eqb c 101 || N.eqb c 69 then
        let '(neg, ds) := signed s' in
        option_map (fun z => if neg then - z else z) (all_digits 10 ds)
      else None
  end.

(** An unsigned decimal literal [ddd.ddd e±dd], as an integer and a power of
    ten.  One of the integer and fraction parts must be there. *)
Definition decimal (s : jsstring) : option (Z * Z) :=
  let '(ip, r1) := span_digits s in
  let '(fp, r2) :=
    match r1 with
    | 46%N :: r => span_digits r
    | _ => ([], r1)
    end in
  match ip ++ fp with
  | [] => None
  | ds =>
      option_map (fun e => (digits_value ds, e - Z.of_nat (length fp)))
        (exponent_part r2)
  end.

(** The double nearest to [± m * 10 ^ e], ties to even. *)
Definition binary64 (neg : bool) (m e : Z) : spec_float :=
  match m with
  | Zpos p =>
      if 0 <=? e then binary_normalize 53 1024 (cond_Zopp neg (m * 10 ^ e)) 0 false
      else SFdiv 53 1024 (S754_finite neg p 0)
             (S754_finite false (Z.to_pos (10 ^ (- e))) 0)
  | _ => S754_zero neg
  end.

(** [StringToNumber]: the numeric value of a text, NaN if it is no numeric
    literal. *)
Definition StringToNumber (s : jsstring) : spec_float :=
  let t := trim s in
  match t with
  | [] => S754_zero false
  | _ =>
      match non_decimal t with
      | Some (Some z) => binary_normalize 53 1024 z 0 false
      | Some None => S754_nan
      | None =>
          let '(neg, u) := signed t in
          if jsstring_eqb u (str "Infinity") then S754_infinity neg
          else
            match decimal u with
            | Some (m, e) => binary64 neg m e
            | None => S754_nan
            end
      end
  end.

(** Unary plus.  An object has no primitive [valueOf], so it goes through
    its string. *)
Definition ToNumber (c : child) : M spec_float :=
  match c with
  | CUndefined => ret S754_nan
  | _ => do s <- ToString c; ret (StringToNumber s)
  end.

(** *** [eval]

    [String] and [RegExp] call [eval] on their token, directly: a text that is
    one string literal or one regular expression is decoded; any other text
    runs as a program in the scope of the caller, where it reaches [raw],
    [arguments] and every object of the store.  What programs do is left to
    the runtime and is a parameter. *)

Definition backslash : N := 92.

Definition is_line_terminator (c : N) : bool :=
  N.eqb c 10 || N.eqb c 13 || N.eqb c 8232 || N.eqb c 8233.

(** A code point as one or two code units. *)
Definition utf16 (cp : N) : jsstring :=
  if (cp <? 65536)%N then [cp]
  else [(55296 + (cp - 65536) / 1024)%N; (56320 + (cp - 65536) mod 1024)%N].

(** Where the decoder of a string literal stands. *)
Inductive escape_state : Type :=
  | Plain                          (* outside an escape *)
  | Escaped                        (* after a backslash *)
  | Hex (more : nat) (acc : N)     (* in \xHH or \uHHHH, [S more] digits to come *)
  | Unicode                        (* after \u *)
  | Braced (any : bool) (acc : N)  (* in \u{...} *)
  | Octal (more : nat) (acc : N)   (* in \ddd, at most [more] digits to come *)
  | ContinuedCR.                   (* after a backslash and a carriage return *)

(** What one code unit does to the decoder: it adds to the value and moves
    on, it closes the literal, or it is an error. *)
Inductive step_result : Type :=
  | Emit (out : jsstring) (st : escape_state)
  | Close (out : jsstring)
  | Bad.

(** A code unit outside an escape: the quote [q] closes the literal, a
    backslash opens an escape, a line feed or carriage return is an error. *)
Definition plain_step (q c : N) : step_result :=
  if N.eqb c q then Close []
  else if N.eqb c backslash then Emit [] Escaped
  else if N.eqb c 10 || N.eqb c 13 then Bad
  else Emit [c] Plain.

(** The value [out] of an escape that ended before this code unit. *)
Definition after (out : jsstring) (r : step_result) : step_result :=
  match r with
  | Emit o st => Emit (out ++ o) st
  | Close o => Close (out ++ o)
  | Bad => Bad
  end.

(** Octal escapes are read as outside strict mode; a [\x] or [\u] without
    its digits and a code point beyond 10FFFF are errors. *)
Definition step (q : N) (st : escape_state) (c : N) : step_result :=
  match st with
  | Plain => plain_step q c
  | Escaped =>
      if N.eqb c 110 then Emit [10%N] Plain
      else if N.eqb c 116 then Emit [9%N] Plain
      else if N.eqb c 98 then Emit [8%N] Plain
      else if N.eqb c 102 then Emit [12%N] Plain
      else if N.eqb c 114 then Emit [13%N] Plain
      else if N.eqb c 118 then Emit [11%N] Plain
      else if N.eqb c 120 then Emit [] (Hex 1 0)
      else if N.eqb c 117 then Emit [] Unicode
      else if N.eqb c 13 then Emit [] ContinuedCR
      else if is_line_terminator c then Emit [] Plain
      else
        match digit_of 8 c with
        | Some d => Emit [] (Octal (if (d <? 4)%N then 2 else 1) d)
        | None => Emit [c] Plain
        end
  | Hex more acc =>
      match digit_of 16 c with
      | Some d =>
          match more with
          | O => Emit [(acc * 16 + d)%N] Plain
          | S more' => Emit [] (Hex more' (acc * 16 + d))
          end
      | None => Bad
      end
  | Unicode =>
      if N.eqb c 123 then Emit [] (Braced false 0)
      else
        match digit_of 16 c with
        | Some d => Emit [] (Hex 2 d)
        | None => Bad
        end
  | Braced any acc =>
      if N.eqb c 125 then if any then Emit (utf16 acc) Plain else Bad
      else
        match digit_of 16 c with
        | Some d =>
            if (acc * 16 + d <=? 1114111)%N then Emit [] (Braced true (acc * 16 + d))
            else Bad
        | None => Bad
        end
  | Octal more acc =>
      match more, digit_of 8 c with
      | S more', Some d => Emit [] (Octal more' (acc * 8 + d))
      | _, _ => after [acc] (plain_step q c)
      end
  | ContinuedCR =>
      if N.eqb c 10 then Emit [] Plain else plain_step q c
  end.

(** The value of the body of a string literal, from after the opening quote
    [q] to the closing quote, and the text after that quote; nothing if the
    literal is not closed or holds an error. *)
Fixpoint decode (q : N) (st : escape_state) (s : jsstring)
  : option (jsstring * jsstring) :=
  match s with
  | [] => None
  | c :: r =>
      match step q st c with
      | Emit out st' => option_map (fun '(v, t) => (out ++ v, t)) (decode q st' r)
      | Close out => Some (out, r)
      | Bad => None
      end
  end.

(** The body of a regular-expression literal up to the closing slash, and
    the text after it.  A slash inside a class or after a backslash does not
    close the literal; a line terminator is an error. *)
Fixpoint regexp_body (in_class : bool) (s : jsstring) : option (jsstring * jsstring) :=
  match s with
  | [] => None
  | c :: r =>
      if is_line_terminator c then None
      else if N.eqb c backslash then
        match r with
        | [] => None
        | c' :: r' =>
            if is_line_terminator c' then None
            else option_map (fun '(b, f) => (c :: c' :: b, f)) (regexp_body in_class r')
        end
      else if N.eqb c 47 && negb in_class then Some ([], r)
      else
        let in_class' :=
          if N.eqb c 91 then true else if N.eqb c 93 then false else in_class in
        option_map (fun '(b, f) => (c :: b, f)) (regexp_body in_class' r)
  end.

(** The flags are letters of [dgimsuvy], each at most once, and not both
    [u] and [v]. *)
Definition flags_ok (flags : jsstring) : bool :=
  forallb (fun c => bool_decide (c ∈ str "dgimsuvy")) flags
  && bool_decide (NoDup flags)
  && negb (bool_decide (117%N ∈ flags) && bool_decide (118%N ∈ flags)).

(** A code unit that continues an identifier: after the closing slash of a
    regular expression, a run of them is read as its flags.  Letters, digits,
    [$] and [_] of ASCII are such; other code units are not decided here. *)
Definition is_flag_unit (c : N) : bool :=
  (48 <=? c)%N && (c <=? 57)%N || (65 <=? c)%N && (c <=? 90)%N
  || (97 <=? c)%N && (c <=? 122)%N || N.eqb c 36 || N.eqb c 95.

(** How [eval] reads a text. *)
Inductive reading : Type :=
  | NoText                                 (* nothing, or a comment to the end *)
  | StringLiteral (v : jsstring)           (* one string literal and no more *)
  | RegExpLiteral (body flags : jsstring)  (* one regular expression and no more *)
  | Unreadable                             (* a literal that is not closed or holds an error *)
  | ProgramText.                           (* any other text *)

(** A text after its first slash.  A second slash opens a comment, which
    ends with the line; a star opens a comment too.  Else the text begins a
    regular expression, which must be closed; it is the whole text if only
    flags follow the closing slash. *)
Definition scan_regexp (s : jsstring) : reading :=
  match s with
  | [] => Unreadable
  | c :: r =>
      if N.eqb c 47 then
        if existsb is_line_terminator r then ProgramText else NoText
      else if N.eqb c 42 then ProgramText
      else
        match regexp_body false s with
        | Some (body, rest) =>
            if forallb is_flag_unit rest then RegExpLiteral body rest
            else ProgramText
        | None => Unreadable
        end
  end.

(** A text that begins with a quote begins a string literal, one that begins
    with a slash a regular expression or a comment.  A literal with more
    text after it, and every text that begins otherwise, is a program. *)
Definition scan (src : jsstring) : reading :=
  match src with
  | [] => NoText
  | c :: s =>
      if N.eqb c 34 || N.eqb c 39 then
        match decode c Plain s with
        | Some (v, []) => StringLiteral v
        | Some (_, _ :: _) => ProgramText
        | None => Unreadable
        end
      else if N.eqb c 47 then scan_regexp s
      else ProgramText
  end.

(** What a program did when it ended, as far as its caller can tell: its
    value or what it threw, the variable [raw] of the caller, the objects of
    the store it wrote, as it left them, and the objects it made. *)
Record outcome : Type := mkOutcome {
  completion : result value;
  raw_after : value;
  written : list (loc * object);
  created : list object
}.

Definition overwrite (ws : list (loc * object)) (h : heap) : heap :=
  fold_left (fun h (w : loc * object) => <[w.1 := w.2]> h) ws h.

Section Engine.

(** The syntax of patterns belongs to the regular-expression engine of the
    runtime: [pattern_ok flags body] tells whether it compiles [body] under
    [flags]. *)
Variable pattern_ok : jsstring -> jsstring -> bool.

(** What the runtime does with a program: [program src arguments h] is the
    outcome of the text [src] run by a function called with [arguments], in
    the store [h]. *)
Variable program : jsstring -> list child -> heap -> outcome.

Definition run (src : jsstring) (arguments : list child) : M (value * value) :=
  fun h =>
    let o := program src arguments h in
    let h' := overwrite (written o) h ++ created o in
    match completion o with
    | Return v => (Return (v, raw_after o), h')
    | Throw e => (Throw e, h')
    end.

(** [eval(raw)] in a function whose parameter is [raw]: the value of the
    call, and [raw] after it.  A value that is no string is returned as it
    is; of a text, a literal is decoded and a program is run. *)
Definition eval (raw : child) (arguments : list child) : M (value * value) :=
  match raw with
  | CString src =>
      match scan src with
      | NoText => ret (VChild CUndefined, VChild raw)
      | StringLiteral v => ret (VChild (CString v), VChild raw)
      | RegExpLiteral body flags =>
          if flags_ok flags && pattern_ok flags body
          then
            do value <- alloc (mkObject (ORegExp body flags) []);
            ret (VChild value, VChild raw)
          else throw SyntaxError
      | Unreadable => throw SyntaxError
      | ProgramText => run src arguments
      end
  | _ => ret (VChild raw, VChild raw)
  end.

End Engine.

(** ** The builders *)

(** The [n]th argument of a call, [undefined] when the call has fewer. *)
Definition arg (n : nat) (children : list child) : child :=
  nth n children CUndefined.

(** A rest parameter after [n] named ones. *)
Definition rest (n : nat) (children : list child) : list child :=
  skipn n children.

(** [defs.shift()] on the array of a rest parameter, which no one else
    holds. *)
Definition shift (defs : list child) : child * list child :=
  match defs with
  | [] => (CUndefined, [])
  | d :: defs' => (d, defs')
  end.

(** [value.source] and [value.flags] in [RegExp]: accessors of a regular
    expression, own properties of another object, nothing on a string, a
    number or a boolean; reading them of [undefined] or [null] throws. *)
Definition get_source (v : value) : M value :=
  match v with
  | VChild CUndefined | VNull => throw TypeError
  | VChild (CRef l) =>
      read (fun h =>
        match h !! l with
        | Some (mkObject (ORegExp source _) _) => VChild (CString source)
        | Some o => get_prop k_source (obj_props o)
        | None => VChild CUndefined
        end)
  | _ => ret (VChild CUndefined)
  end.

Definition get_flags (v : value) : M value :=
  match v with
  | VChild CUndefined | VNull => throw TypeError
  | VChild (CRef l) =>
      read (fun h =>
        match h !! l with
        | Some (mkObject (ORegExp _ flags) _) => VChild (CString (flags_getter flags))
        | Some o => get_prop k_flags (obj_props o)
        | None => VChild CUndefined
        end)
  | _ => ret (VChild CUndefined)
  end.

Module processors.

Definition ArgList (_op : child) (args : list child) : M child :=
  new_array
    (List.filter (fun arg => negb (is_str arg (str ",")) && negb (is_str arg (str ")"))) args).

Definition ArrayExpression (_ob : child) (elements : list child) : M child :=
  do elements <- new_array
    (List.filter (fun elem => negb (is_str elem (str ",")) && negb (is_str elem (str "]")))
       elements);
  new_object [(k_type, VStr "ArrayExpression"); (k_elements, VChild elements)].

Definition AssignmentExpression (left operator right : child) : M child :=
  new_object [(k_type, VStr "AssignmentExpression"); (k_left, VChild left);
              (k_operator, VChild operator); (k_right, VChild right)].

Definition BinaryExpression (left op right : child) : M child :=
  do s <- ToString op;
  let type := if has_logical_op s then "LogicalExpression"%string else "BinaryExpression"%string in
  new_object [(k_type, VStr type); (k_operator, VChild op);
              (k_left, VChild left); (k_right, VChild right)].

Definition Block (_ob : child) (parts : list child) : M child :=
  do body <- new_array (List.filter (fun part => negb (is_str part (str "}"))) parts);
  new_object [(k_type, VStr "BlockStatement"); (k_body, VChild body)].

Definition BooleanLiteral (raw : child) : M child :=
  new_object [(k_type, VStr "Literal"); (k_value, VBool (is_str raw (str "true")));
              (k_raw, VChild raw)].

Definition BreakStatement (_break _label : child) : M child :=
  let label := if is_str _label (str ";") then VNull else VChild _label in
  new_object [(k_type, VStr "BreakStatement"); (k_label, label)].

Definition CallExpression (callee args : child) : M child :=
  new_object [(k_type, VStr "CallExpression"); (k_callee, VChild callee);
              (k_arguments, VChild args)].

Definition ConditionalExpression (test _qm consequent _colon alternate : child)
  : M child :=
  new_object [(k_type, VStr "ConditionalExpression"); (k_test, VChild test);
              (k_consequent, VChild consequent); (k_alternate, VChild alternate)].

Definition ContinueStatement (_continue _label : child) : M child :=
  let label := if is_str _label (str ";") then VNull else VChild _label in
  new_object [(k_type, VStr "ContinueStatement"); (k_label, label)].

Definition ExpressionStatement (expression : child) : M child :=
  new_object [(k_type, VStr "ExpressionStatement"); (k_expression, VChild expression)].

(** The second parameter is the pattern [{ id }]. *)
Definition FunctionDeclaration (_kw def params body : child) : M child :=
  do id <- get def k_id;
  let async := false in
  let generator := false in
  new_object [(k_type, VStr "FunctionDeclaration"); (k_id, id);
              (k_params, VChild params); (k_body, VChild body);
              (k_async, VBool async); (k_generator, VBool generator)].

(** The last parameter is [alternate = null]. *)
Definition IfStatement (_if test consequent _else alternate : child) : M child :=
  let alternate :=
    match alternate with
    | CUndefined => VNull
    | _ => VChild alternate
    end in
  new_object [(k_type, VStr "IfStatement"); (k_test, VChild test);
              (k_consequent, VChild consequent); (k_alternate, alternate)].

Definition MemberExpression (object op property : child) : M child :=
  let computed := is_str op (str "[") in
  new_object [(k_type, VStr "MemberExpression"); (k_object, VChild object);
              (k_property, VChild property); (k_computed, VBool computed)].

(** [raw.replace] exists on a string only. *)
Definition Number (raw : child) : M child :=
  do s <- ToString raw;
  do value <-
    (if ends_with_n s then
       match raw with
       | CString r =>
           match StringToBigInt (strip_n r) with
           | Some z => ret (VBigInt z)
           | None => throw SyntaxError
           end
       | _ => throw TypeError
       end
     else do x <- ToNumber raw; ret (VNumber x));
  new_object [(k_type, VStr "Literal"); (k_value, value); (k_raw, VChild raw)].

Definition ObjectExpression (_ob : child) (properties : list child) : M child :=
  do properties <- new_array
    (List.filter (fun prop => negb (is_str prop (str ",")) && negb (is_str prop (str "}")))
       properties);
  new_object [(k_type, VStr "ObjectExpression"); (k_properties, VChild properties)].

Definition ParamList (_op : child) (parts : list child) : M child :=
  new_array (List.filter (fun part => negb (is_str part (str ")"))) parts).

Definition ParenthesizedExpression (_op exp _cp : child) : M child :=
  ret exp.

Definition PostfixExpression (argument operator : child) : M child :=
  let type := "UpdateExpression"%string in
  new_object [(k_type, VStr type); (k_prefix, VBool false);
              (k_operator, VChild operator); (k_argument, VChild argument)].

Definition Property (args : list child) : M child :=
  let kind := "init"%string in
  let method := false in
  let shorthand := false in
  if is_str (arg 0 args) (str "[") then
    let key := arg 1 args in
    let value := arg 4 args in
    let computed := true in
    new_object [(k_type, VStr "Property"); (k_key, VChild key); (k_value, VChild value);
                (k_computed, VBool computed); (k_kind, VStr kind);
                (k_method, VBool method); (k_shorthand, VBool shorthand)]
  else
    let computed := false in
    let key := arg 0 args in
    let value := arg 2 args in
    new_object [(k_type, VStr "Property"); (k_key, VChild key); (k_value, VChild value);
                (k_computed, VBool computed); (k_kind, VStr kind);
                (k_method, VBool method); (k_shorthand, VBool shorthand)].

Definition PropertyName (name : child) : M child :=
  new_object [(k_type, VStr "Identifier"); (k_name, VChild name)].

Definition PropertyNameDefinition (name : child) : M child :=
  new_object [(k_type, VStr "Identifier"); (k_name, VChild name)].

Definition ReturnStatement (_return argument : child) : M child :=
  new_object [(k_type, VStr "ReturnStatement"); (k_argument, VChild argument)].

Definition Script (body : list child) : M child :=
  do body <- new_array body;
  new_object [(k_type, VStr "Program"); (k_sourceType, VStr "script");
              (k_body, VChild body)].

Definition SequenceExpression (exps : list child) : M child :=
  do expressions <- new_array (List.filter (fun part => negb (is_str part (str ","))) exps);
  new_object [(k_type, VStr "SequenceExpression"); (k_expressions, VChild expressions)].

Definition UnaryExpression (t1 t2 : child) : M child :=
  let prefix := is_string t1 in
  let operator := if prefix then t1 else t2 in
  let argument := if prefix then t2 else t1 in
  do s <- ToString operator;
  let type := if has_update_op s then "UpdateExpression"%string else "UnaryExpression"%string in
  new_object [(k_type, VStr type); (k_prefix, VBool prefix);
              (k_operator, VChild operator); (k_argument, VChild argument)].

(** The body of the [do ... while (op === ',')] loop, at most [fuel]
    rounds of it. *)
Fixpoint declare (fuel : nat) (declarations : child) (defs : list child) : M unit :=
  match fuel with
  | O => ret tt
  | S fuel' =>
      let '(decl, defs) := shift defs in
      let '(op, defs) := shift defs in
      do next <-
        (if is_str op (str "=") then
           let '(init, defs) := shift defs in
           do _ <- assign decl k_init (VChild init);
           ret (shift defs)
         else
           do _ <- assign decl k_init VNull;
           ret (op, defs));
      let '(op, defs) := next in
      do _ <- push declarations decl;
      if is_str op (str ",") then declare fuel' declarations defs else ret tt
  end.

Definition VariableDeclaration (kind : child) (defs : list child) : M child :=
  do declarations <- new_array [];
  do _ <- declare (S (length defs)) declarations defs;
  new_object [(k_type, VStr "VariableDeclaration"); (k_kind, VChild kind);
              (k_declarations, VChild declarations)].

Definition VariableDefinition (name : child) : M child :=
  do id <- new_object [(k_type, VStr "Identifier"); (k_name, VChild name)];
  new_object [(k_type, VStr "VariableDeclarator"); (k_id, VChild id)].

Definition VariableName (name : child) : M child :=
  do s <- ToString name;
  if is_keyword_literal s then
    do value <- JSON_parse s;
    new_object [(k_type, VStr "Literal"); (k_value, value)]
  else if is_str name (str "this") then
    new_object [(k_type, VStr "ThisExpression")]
  else
    new_object [(k_type, VStr "Identifier"); (k_name, VChild name)].

Definition WhileStatement (_while test body : child) : M child :=
  new_object [(k_type, VStr "WhileStatement"); (k_test, VChild test);
              (k_body, VChild body)].

(** The builders of [ArithOp], [BitOp], [CompareOp], [Equals], [LogicOp]
    and [UpdateOp]. *)
Definition token (token : child) : M child :=
  ret token.

Section Engine.

Variable pattern_ok : jsstring -> jsstring -> bool.
Variable program : jsstring -> list child -> heap -> outcome.

(** The two callers of [eval] read [raw] after the call; [arguments] is what
    the builder was called with. *)
Definition RegExp (raw : child) (arguments : list child) : M child :=
  do r <- eval pattern_ok program raw arguments;
  let '(value, raw) := r in
  do source <- get_source value;
  do flags <- get_flags value;
  do regex <- new_object [(k_pattern, source); (k_flags, flags)];
  new_object [(k_type, VStr "Literal"); (k_raw, raw); (k_value, value);
              (k_regex, VChild regex)].

Definition String (raw : child) (arguments : list child) : M child :=
  do r <- eval pattern_ok program raw arguments;
  let '(value, raw) := r in
  new_object [(k_type, VStr "Literal"); (k_value, value); (k_raw, raw)].

(** A builder as the tree walker calls it, on the list of the children. *)
Definition builder : Type := list child -> M child.

(** The object [processors] once the module is loaded: the members of the
    literal, then the six token kinds added by the loop. *)
Definition entries : list (jsstring * builder) :=
  [ (str "ArgList", fun c => ArgList (arg 0 c) (rest 1 c));
    (str "ArrayExpression", fun c => ArrayExpression (arg 0 c) (rest 1 c));
    (str "AssignmentExpression",
       fun c => AssignmentExpression (arg 0 c) (arg 1 c) (arg 2 c));
    (str "BinaryExpression", fun c => BinaryExpression (arg 0 c) (arg 1 c) (arg 2 c));
    (str "Block", fun c => Block (arg 0 c) (rest 1 c));
    (str "BooleanLiteral", fun c => BooleanLiteral (arg 0 c));
    (str "BreakStatement", fun c => BreakStatement (arg 0 c) (arg 1 c));
    (str "CallExpression", fun c => CallExpression (arg 0 c) (arg 1 c));
    (str "ConditionalExpression",
       fun c => ConditionalExpression (arg 0 c) (arg 1 c) (arg 2 c) (arg 3 c) (arg 4 c));
    (str "ContinueStatement", fun c => ContinueStatement (arg 0 c) (arg 1 c));
    (str "ExpressionStatement", fun c => ExpressionStatement (arg 0 c));
    (str "FunctionDeclaration",
       fun c => FunctionDeclaration (arg 0 c) (arg 1 c) (arg 2 c) (arg 3 c));
    (str "IfStatement",
       fun c => IfStatement (arg 0 c) (arg 1 c) (arg 2 c) (arg 3 c) (arg 4 c));
    (str "MemberExpression", fun c => MemberExpression (arg 0 c) (arg 1 c) (arg 2 c));
    (str "Number", fun c => Number (arg 0 c));
    (str "ObjectExpression", fun c => ObjectExpression (arg 0 c) (rest 1 c));
    (str "ParamList", fun c => ParamList (arg 0 c) (rest 1 c));
    (str "ParenthesizedExpression",
       fun c => ParenthesizedExpression (arg 0 c) (arg 1 c) (arg 2 c));
    (str "PostfixExpression", fun c => PostfixExpression (arg 0 c) (arg 1 c));
    (str "Property", fun c => Property c);
    (str "PropertyName", fun c => PropertyName (arg 0 c));
    (str "PropertyNameDefinition", fun c => PropertyNameDefinition (arg 0 c));
    (str "RegExp", fun c => RegExp (arg 0 c) c);
    (str "ReturnStatement", fun c => ReturnStatement (arg 0 c) (arg 1 c));
    (str "Script", fun c => Script c);
    (str "SequenceExpression", fun c => SequenceExpression c);
    (str "String", fun c => String (arg 0 c) c);
    (str "UnaryExpression", fun c => UnaryExpression (arg 0 c) (arg 1 c));
    (str "VariableDeclaration", fun c => VariableDeclaration (arg 0 c) (rest 1 c));
    (str "VariableDefinition", fun c => VariableDefinition (arg 0 c));
    (str "VariableName", fun c => VariableName (arg 0 c));
    (str "WhileStatement", fun c => WhileStatement (arg 0 c) (arg 1 c) (arg 2 c));
    (str "ArithOp", fun c => token (arg 0 c));
    (str "BitOp", fun c => token (arg 0 c));
    (str "CompareOp", fun c => token (arg 0 c));
    (str "Equals", fun c => token (arg 0 c));
    (str "LogicOp", fun c => token (arg 0 c));
    (str "UpdateOp", fun c => token (arg 0 c)) ].

(** [processors] is an ordinary object: these names it has from
    [Object.prototype], and looking one of them up does not give
    [undefined]. *)
Definition inherited : list jsstring :=
  [ str "constructor"; str "hasOwnProperty"; str "isPrototypeOf";
    str "propertyIsEnumerable"; str "toLocaleString"; str "toString";
    str "valueOf"; str "__proto__"; str "__defineGetter__";
    str "__defineSetter__"; str "__lookupGetter__"; str "__lookupSetter__" ].

(** [processors[kind]] for a kind that is not one of [inherited]: the
    member of that name, or [undefined]. *)
Fixpoint member (kind : jsstring) (l : list (jsstring * builder)) : option builder :=
  match l with
  | [] => None
  | (k, f) :: l' => if jsstring_eqb k kind then Some f else member kind l'
  end.

Definition lookup (kind : jsstring) : option builder :=
  member kind entries.

(** A call [f(...children)]; calling [undefined] throws. *)
Definition invoke (f : option builder) (children : list child) : M child :=
  match f with
  | Some b => b children
  | None => throw TypeError
  end.

(** [processors[kind](...children)] *)
Definition build (kind : jsstring) (children : list child) : M child :=
  invoke (lookup kind) children.

End Engine.

End processors.

Local Close Scope Z_scope.

(** * Vocabulary of the statements *)

(** ** Reading a result *)

(** [c[k]] in a store, for stating what a builder returned. *)
Definition field (h : heap) (c : child) (k : key) : value :=
  match c with
  | CRef l =>
      match h !! l with
      | Some o => get_prop k (obj_props o)
      | None => VChild CUndefined
      end
  | _ => VChild CUndefined
  end.

(** [k in c] *)
Definition has_field (h : heap) (c : child) (k : key) : bool :=
  match c with
  | CRef l =>
      match h !! l with
      | Some o => has_prop k (obj_props o)
      | None => false
      end
  | _ => false
  end.

(** The elements of the array [c]. *)
Definition elements (h : heap) (c : child) : option (list child) :=
  match c with
  | CRef l =>
      match h !! l with
      | Some (mkObject (OArray elems) _) => Some elems
      | _ => None
      end
  | _ => None
  end.

(** An engine that accepts every pattern, to run the builders where no
    pattern is at stake. *)
Definition any_pattern : jsstring -> jsstring -> bool := fun _ _ => true.

(** A program that does nothing and has no value, as a text of blanks is. *)
Definition blank_program : jsstring -> list child -> heap -> outcome :=
  fun _ arguments _ =>
    mkOutcome (Return (VChild CUndefined)) (VChild (arg 0 arguments)) [] [].

(** [raw] is not a text that [eval] runs as a program. *)
Definition runs_no_program (raw : child) : Prop :=
  match raw with
  | CString src => scan src <> ProgramText
  | _ => True
  end.

(** ** The store under a builder *)

(** [h'] is [h] with new objects after it: nothing of [h] was written. *)
Definition extends (h h' : heap) : Prop := exists new, h' = h ++ new.

(** A computation that only allocates. *)
Definition allocates {A} (m : M A) : Prop := forall h, extends h (m h).2.

(** [h'] differs from [h] on the objects of [h] at most by the [init]
    property of the objects named in [targets]. *)
Definition init_only (targets : list child) (h h' : heap) : Prop :=
  forall l o, h !! l = Some o ->
    exists o', h' !! l = Some o'
      /\ obj_class o' = obj_class o
      /\ (forall k, k <> k_init -> get_prop k (obj_props o') = get_prop k (obj_props o))
      /\ (CRef l ∉ targets -> o' = o).

(** A computation that keeps a relation [R] to an earlier store and whose
    result, when it returns one, satisfies [Q]. *)
Definition preserves {A} (R : heap -> Prop) (m : M A) (Q : A -> Prop) : Prop :=
  forall h, R h -> R (m h).2 /\ forall a, (m h).1 = Return a -> Q a.

(** Whenever [m] returns, the node it returns has the own property [raw],
    holding [raw]. *)
Definition carries_raw (m : M child) (raw : child) : Prop :=
  forall (h : heap) r h',
    m h = (Return r, h') ->
    has_field h' r k_raw = true /\ field h' r k_raw = VChild raw.

(** [m] run in [h] throws an error of the given name. *)
Definition fails_with {A} (m : M A) (h : heap) (name : jsstring) : Prop :=
  exists e h', m h = (Throw e, h') /\ error_name e = name.

(** The only errors of [m] are those of [E]. *)
Definition throws_only {A} (E : error -> Prop) (m : M A) : Prop :=
  forall (h : heap) e h', m h = (Throw e, h') -> E e.

(** A decimal digit, and the integer written by a run of them. *)
Definition is_decimal_digit (c : N) : Prop := (48 <= c <= 57)%N.

Definition decimal_value (ds : jsstring) : Z :=
  fold_left (fun acc c => (acc * 10 + Z.of_N (c - 48))%Z) ds 0%Z.




(** A digit of the base, and the integer written by a run of them. *)
Definition is_digit_in (base : N) (c : N) : Prop := digit_of base c <> None.

Definition radix_value (base : N) (ds : jsstring) : Z :=
  fold_left
    (fun acc c => (acc * Z.of_N base + Z.of_N (default 0%N (digit_of base c)))%Z)
    ds 0%Z.

(** The letters that follow [0] in a literal of another base, with the
    base. *)
Definition radix_prefixes : list (N * N) :=
  [ (120, 16); (88, 16); (111, 8); (79, 8); (98, 2); (66, 2) ]%N.

(** The double nearest to an integer, and to the quotient of a positive
    integer by another, ties to even: one rounding of the exact value, as
    IEEE 754 binary64 has it. *)
Definition double_of_Z (z : Z) : spec_float :=
  binary_normalize 53 1024 z 0 false.

Definition double_of_ratio (n d : positive) : spec_float :=
  SFdiv 53 1024 (S754_finite false n 0) (S754_finite false d 0).

(** The double written by the digits [ds], the last [places] of them after
    the point. *)
Definition double_of_decimal (ds : jsstring) (places : nat) : spec_float :=
  match decimal_value ds with
  | Zpos n => double_of_ratio n (Z.to_pos (10 ^ Z.of_nat places))
  | _ => S754_zero false
  end.

(** The literal [Number] makes of a token. *)
Definition number_literal (value : value) (raw : jsstring) : object :=
  mkObject OPlain [(k_type, VStr "Literal"); (k_value, value);
                   (k_raw, VChild (CString raw))].

(** In every store [m] returns a node that has the own property [raw],
    holding [raw]. *)
Definition returns_with_raw (m : M child) (raw : child) : Prop :=
  forall h : heap, exists r h',
    m h = (Return r, h')
    /\ has_field h' r k_raw = true /\ field h' r k_raw = VChild raw.

(** ** Vocabulary of the further properties *)

(** The six kinds the loop at the end of the source adds. *)
Definition token_kinds : list jsstring :=
  [ str "ArithOp"; str "BitOp"; str "CompareOp"; str "Equals"; str "LogicOp";
    str "UpdateOp" ].

(** A computation that returns in every store. *)
Definition returns {A} (m : M A) : Prop :=
  forall h : heap, exists a h', m h = (Return a, h').

(** The kinds whose builder has a call that can throw. *)
Definition throwing_kinds : list jsstring :=
  [ str "FunctionDeclaration"; str "Number"; str "RegExp"; str "String";
    str "VariableDeclaration" ].

(** The [type] strings written in the source. *)
Definition node_types : list string :=
  [ "ArrayExpression"; "AssignmentExpression"; "BinaryExpression";
    "BlockStatement"; "BreakStatement"; "CallExpression";
    "ConditionalExpression"; "ContinueStatement"; "ExpressionStatement";
    "FunctionDeclaration"; "Identifier"; "IfStatement"; "Literal";
    "LogicalExpression"; "MemberExpression"; "ObjectExpression"; "Program";
    "Property"; "ReturnStatement"; "SequenceExpression"; "ThisExpression";
    "UnaryExpression"; "UpdateExpression"; "VariableDeclaration";
    "VariableDeclarator"; "WhileStatement" ]%string.

(** The kinds whose builder returns a bare array or one of its children. *)
Definition non_node_kinds : list jsstring :=
  [ str "ArgList"; str "ParamList"; str "ParenthesizedExpression";
    str "ArithOp"; str "BitOp"; str "CompareOp"; str "Equals"; str "LogicOp";
    str "UpdateOp" ].

(** [r] is a plain object that was not in [h], with a [type] of the
    list. *)
Definition fresh_node (h : heap) (r : child) (h' : heap) : Prop :=
  exists l ps t,
    r = CRef l /\ length h <= l
    /\ h' !! l = Some (mkObject OPlain ps)
    /\ get_prop k_type ps = VStr t /\ In t node_types.

Definition builds_node (m : M child) : Prop :=
  forall (h : heap) r h', m h = (Return r, h') -> fresh_node h r h'.

(** A computation that does not shorten the store. *)
Definition grows {A} (m : M A) : Prop :=
  forall h : heap, length h <= length (m h).2.

(** One declarator of a declaration: its object and its initializer, if it
    has one. *)
Definition item : Type := loc * option child.

Definition init_tokens (i : option child) : list child :=
  match i with
  | Some c => [CString (str "="); c]
  | None => []
  end.

Definition init_value (i : option child) : value :=
  match i with
  | Some c => VChild c
  | None => VNull
  end.

(** The children [d1 (= i1)? , d2 (= i2)? , ... dn (= in)?] followed by
    [tail]. *)
Fixpoint declarator_tokens (first : item) (more : list item) (tail : list child)
  : list child :=
  CRef first.1 :: init_tokens first.2 ++
  match more with
  | [] => tail
  | next :: more' => CString (str ",") :: declarator_tokens next more' tail
  end.

(** The writes of [init] that the declarators ask for, in their order. *)
Definition write_inits (items : list item) (h : heap) : heap :=
  fold_left (fun h (it : item) => alter (write_prop k_init (init_value it.2)) it.1 h)
    items h.

(** [output] is [input] without the delimiters: a subsequence of it, with
    exactly the children that are none of the delimiter strings. *)
Definition kept (delimiters : list jsstring) (input output : list child) : Prop :=
  output `sublist_of` input
  /\ forall c, c ∈ output <-> c ∈ input /\ forall d, d ∈ delimiters -> c <> CString d.

(** A code unit that stands for itself in a literal quoted by [q]. *)
Definition literal_unit (q c : N) : Prop :=
  c <> q /\ c <> backslash /\ c <> 10%N /\ c <> 13%N.

(** A code unit of a pattern that is no slash, backslash, opening bracket
    or line terminator. *)
Definition pattern_unit (c : N) : Prop :=
  c <> 47%N /\ c <> backslash /\ c <> 91%N /\ is_line_terminator c = false.

(** * Proofs *)

Lemma extends_refl h : extends h h.
Proof. exists []. by rewrite app_nil_r. Qed.

Lemma extends_trans h1 h2 h3 : extends h1 h2 -> extends h2 h3 -> extends h1 h3.
Proof. intros [n1 ->] [n2 ->]. exists (n1 ++ n2). by rewrite app_assoc. Qed.

Lemma extends_lookup h h' l o : extends h h' -> h !! l = Some o -> h' !! l = Some o.
Proof. intros [new ->] H. by apply lookup_app_l_Some. Qed.

Lemma allocates_ret {A} (a : A) : allocates (ret a).
Proof. intros h. apply extends_refl. Qed.

Lemma allocates_throw {A} e : allocates (@throw A e).
Proof. intros h. apply extends_refl. Qed.

Lemma allocates_read {A} (f : heap -> A) : allocates (read f).
Proof. intros h. apply extends_refl. Qed.

Lemma allocates_alloc o : allocates (alloc o).
Proof. intros h. by exists [o]. Qed.

Lemma allocates_bind {A B} (m : M A) (f : A -> M B) :
  allocates m -> (forall a, allocates (f a)) -> allocates (bind m f).
Proof.
  intros Hm Hf h. unfold bind. specialize (Hm h).
  destruct (m h) as [[a|e] h1]; simpl in *; [|done].
  eapply extends_trans; [exact Hm | apply Hf].
Qed.

(** Follow the binds and the branches of a computation, with the rule of the
    property at hand for [bind]. *)
Ltac follow_binds bind_rule :=
  repeat match goal with
    | |- _ (bind _ _) => apply bind_rule
    | |- forall _, _ => intro
    | |- _ (match _ with _ => _ end) => case_match
    end.

Lemma allocates_new_object ps : allocates (new_object ps).
Proof. apply allocates_alloc. Qed.

Lemma allocates_new_array elems : allocates (new_array elems).
Proof. apply allocates_alloc. Qed.

Lemma allocates_ToString c : allocates (ToString c).
Proof. apply allocates_read. Qed.

Lemma allocates_ToNumber c : allocates (ToNumber c).
Proof.
  destruct c; simpl; follow_binds @allocates_bind;
    auto using allocates_ret, allocates_ToString.
Qed.

Lemma allocates_get c k : allocates (get c k).
Proof. destruct c; simpl; auto using allocates_ret, allocates_throw, allocates_read. Qed.

Lemma allocates_get_source v : allocates (get_source v).
Proof.
  destruct v as [[| |l]| | | |]; simpl;
    auto using allocates_ret, allocates_throw, allocates_read.
Qed.

Lemma allocates_get_flags v : allocates (get_flags v).
Proof.
  destruct v as [[| |l]| | | |]; simpl;
    auto using allocates_ret, allocates_throw, allocates_read.
Qed.

Lemma allocates_JSON_parse s : allocates (JSON_parse s).
Proof.
  unfold JSON_parse. repeat case_match; auto using allocates_ret, allocates_throw.
Qed.

(** On a text that is no program, [eval] only allocates. *)
Lemma allocates_eval pattern_ok program raw arguments :
  runs_no_program raw -> allocates (eval pattern_ok program raw arguments).
Proof.
  intros Hraw. destruct raw as [|src|l]; simpl in *; [apply allocates_ret| |apply allocates_ret].
  destruct (scan src); [| | | |done]; follow_binds @allocates_bind;
    auto using allocates_ret, allocates_throw, allocates_alloc.
Qed.

Lemma allocates_String pattern_ok program raw arguments :
  runs_no_program raw ->
  allocates (processors.String pattern_ok program raw arguments).
Proof.
  intros Hraw. unfold processors.String.
  apply allocates_bind; [by apply allocates_eval|].
  intros [value raw']. apply allocates_new_object.
Qed.

Lemma allocates_RegExp pattern_ok program raw arguments :
  runs_no_program raw ->
  allocates (processors.RegExp pattern_ok program raw arguments).
Proof.
  intros Hraw. unfold processors.RegExp.
  apply allocates_bind; [by apply allocates_eval|].
  intros [value raw']. follow_binds @allocates_bind;
    auto using allocates_new_object, allocates_get_source, allocates_get_flags.
Qed.

(** Every builder of the registry but [VariableDeclaration] only allocates,
    [String] and [RegExp] as long as their token is no program. *)
Lemma builders_allocate pattern_ok program kind f children :
  In (kind, f) (processors.entries pattern_ok program) ->
  kind <> str "VariableDeclaration" ->
  (kind = str "String" \/ kind = str "RegExp" -> runs_no_program (arg 0 children)) ->
  allocates (f children).
Proof.
  intros Hin Hne Hraw. unfold processors.entries in Hin.
  repeat (destruct Hin as [Heq | Hin];
    [ injection Heq as <- <-;
      first
        [ by destruct Hne
        | by apply allocates_String, Hraw; left
        | by apply allocates_RegExp, Hraw; right
        | unfold processors.ArgList, processors.ArrayExpression,
            processors.AssignmentExpression, processors.BinaryExpression,
            processors.Block, processors.BooleanLiteral, processors.BreakStatement,
            processors.CallExpression, processors.ConditionalExpression,
            processors.ContinueStatement, processors.ExpressionStatement,
            processors.FunctionDeclaration, processors.IfStatement,
            processors.MemberExpression, processors.Number,
            processors.ObjectExpression, processors.ParamList,
            processors.ParenthesizedExpression, processors.PostfixExpression,
            processors.Property, processors.PropertyName,
            processors.PropertyNameDefinition,
            processors.ReturnStatement, processors.Script,
            processors.SequenceExpression,
            processors.UnaryExpression, processors.VariableDefinition,
            processors.VariableName, processors.WhileStatement, processors.token;
          follow_binds @allocates_bind;
          solve [ auto using allocates_ret, allocates_throw, allocates_new_object,
                    allocates_new_array, allocates_ToString, allocates_ToNumber,
                    allocates_get, allocates_JSON_parse ] ]
    | ]).
  destruct Hin.
Qed.

Lemma init_only_refl targets h : init_only targets h h.
Proof. intros l o H. by exists o. Qed.

Lemma extends_init_only targets h h' : extends h h' -> init_only targets h h'.
Proof.
  intros He l o H. exists o. split; [by eapply extends_lookup|done].
Qed.

Lemma get_prop_set_prop_ne k k' v ps :
  k' <> k -> get_prop k' (set_prop k v ps) = get_prop k' ps.
Proof.
  intros Hne. induction ps as [|[k0 v0] ps IH]; simpl.
  - by rewrite bool_decide_eq_false_2.
  - destruct (bool_decide_reflect (k0 = k)) as [->|Hk]; simpl.
    + by rewrite bool_decide_eq_false_2.
    + by rewrite IH.
Qed.

Lemma get_prop_set_prop_eq k v ps : get_prop k (set_prop k v ps) = v.
Proof.
  induction ps as [|[k0 v0] ps IH]; simpl.
  - by rewrite bool_decide_eq_true_2.
  - destruct (bool_decide_reflect (k0 = k)) as [->|Hk]; simpl.
    + by rewrite bool_decide_eq_true_2.
    + by rewrite bool_decide_eq_false_2.
Qed.

(** A write of [init] to a target keeps the relation. *)
Lemma init_only_assign targets (h0 h : heap) decl v :
  decl = CUndefined \/ decl ∈ targets -> init_only targets h0 h ->
  init_only targets h0 (assign decl k_init v h).2.
Proof.
  intros Hin Hrel. destruct decl as [| s | l]; simpl; [done..|].
  destruct Hin as [|Hin]; [done|].
  intros l0 o H0. destruct (Hrel l0 o H0) as (o' & Hl & Hc & Hk & Hid).
  destruct (decide (l = l0)) as [->|Hne].
  - exists (write_prop k_init v o'). rewrite list_lookup_alter_eq, Hl. simpl.
    repeat split; [done| |done].
    intros k Hkne. rewrite get_prop_set_prop_ne by done. by apply Hk.
  - exists o'. by rewrite list_lookup_alter_ne.
Qed.

(** A push to an array that is not of [h0] keeps the relation. *)
Lemma init_only_push targets (h0 h : heap) (a : loc) x :
  length h0 <= a -> init_only targets h0 h ->
  init_only targets h0 (push (CRef a) x h).2.
Proof.
  intros Ha Hrel l0 o H0. simpl.
  destruct (Hrel l0 o H0) as (o' & Hl & Hrest). exists o'.
  rewrite list_lookup_alter_ne; [done|].
  apply lookup_lt_Some in H0. lia.
Qed.

Lemma preserves_ret {A} R (a : A) (Q : A -> Prop) : Q a -> preserves R (ret a) Q.
Proof. intros Ha h Hh. split; [done|]. by intros a' [= <-]. Qed.

Lemma preserves_bind {A B} R (m : M A) (f : A -> M B) Q Q' :
  preserves R m Q -> (forall a, Q a -> preserves R (f a) Q') ->
  preserves R (bind m f) Q'.
Proof.
  intros Hm Hf h Hh. unfold bind. destruct (Hm h Hh) as [Hm1 Hm2].
  destruct (m h) as [[a|e] h1]; simpl in *; [|done].
  apply Hf; [by apply Hm2|done].
Qed.

Lemma shift_elem defs d defs' :
  shift defs = (d, defs') ->
  (d = CUndefined \/ d ∈ defs) /\ (forall c, c ∈ defs' -> c ∈ defs).
Proof.
  destruct defs as [|x defs0]; simpl; intros [= <- <-].
  - by split; [left|].
  - split; [right; by left|]. intros c Hc. by right.
Qed.

Lemma preserves_assign targets (h0 : heap) decl v :
  decl = CUndefined \/ decl ∈ targets ->
  preserves (init_only targets h0) (assign decl k_init v) (fun _ => True).
Proof. intros Hd h Hh. split; [by apply init_only_assign|done]. Qed.

Lemma preserves_push targets (h0 : heap) (a : loc) x :
  length h0 <= a ->
  preserves (init_only targets h0) (push (CRef a) x) (fun _ => True).
Proof. intros Ha h Hh. split; [by apply init_only_push|done]. Qed.

(** The loop writes [init] on declarators of the sequence and pushes to its
    own array. *)
Lemma declare_preserves targets (h0 : heap) (a : loc) :
  length h0 <= a ->
  forall fuel defs, (forall c, c ∈ defs -> c ∈ targets) ->
  preserves (init_only targets h0) (processors.declare fuel (CRef a) defs)
    (fun _ => True).
Proof.
  intros Ha. induction fuel as [|fuel IH]; intros defs Hsub; simpl.
  { by apply preserves_ret. }
  destruct (shift defs) as [decl defs1] eqn:E1.
  destruct (shift defs1) as [op defs2] eqn:E2.
  apply shift_elem in E1 as [Hdecl Hsub1]. apply shift_elem in E2 as [_ Hsub2].
  assert (Hd : decl = CUndefined \/ decl ∈ targets) by (destruct Hdecl; auto).
  apply preserves_bind with (Q := fun next => forall c, c ∈ next.2 -> c ∈ targets).
  - case_match.
    + destruct (shift defs2) as [init defs3] eqn:E3.
      apply shift_elem in E3 as [_ Hsub3].
      eapply preserves_bind; [by apply preserves_assign|].
      intros _ _. apply preserves_ret.
      destruct (shift defs3) as [op' defs4] eqn:E4.
      apply shift_elem in E4 as [_ Hsub4]. simpl.
      intros c Hc. by apply Hsub, Hsub1, Hsub2, Hsub3, Hsub4.
    + eapply preserves_bind; [by apply preserves_assign|].
      intros _ _. apply preserves_ret. simpl.
      intros c Hc. by apply Hsub, Hsub1, Hsub2.
  - intros [op' defs'] Hsub'. simpl in Hsub'.
    eapply preserves_bind; [by apply preserves_push|].
    intros _ _. case_match; [by apply IH|by apply preserves_ret].
Qed.

Lemma init_only_length targets (h0 h : heap) :
  init_only targets h0 h -> length h0 <= length h.
Proof.
  intros Hrel. destruct (decide (length h0 <= length h)) as [|Hlt]; [done|].
  destruct (lookup_lt_is_Some_2 h0 (length h)) as [o Ho]; [lia|].
  destruct (Hrel _ _ Ho) as (o' & Ho' & _).
  apply lookup_lt_Some in Ho'. lia.
Qed.

Lemma preserves_alloc targets (h0 : heap) o :
  preserves (init_only targets h0) (alloc o)
    (fun c => exists a, c = CRef a /\ length h0 <= a).
Proof.
  intros h Hh. split.
  - intros l o0 Hl. destruct (Hh l o0 Hl) as (o' & Hl' & Hrest).
    exists o'. split; [by apply lookup_app_l_Some|done].
  - intros a [= <-]. eexists. split; [done|]. by eapply init_only_length.
Qed.

(** What [VariableDeclaration] does to the store it was called in. *)
Lemma VariableDeclaration_init_only kind defs (h : heap) :
  init_only defs h (processors.VariableDeclaration kind defs h).2.
Proof.
  assert (H : preserves (init_only defs h)
                (processors.VariableDeclaration kind defs) (fun _ => True)).
  { unfold processors.VariableDeclaration.
    eapply preserves_bind; [apply preserves_alloc|].
    intros c (a & -> & Ha).
    eapply preserves_bind; [by apply declare_preserves|].
    intros _ _ h1 Hh1. split; [|done].
    by apply (preserves_alloc defs h _ h1 Hh1). }
  apply H, init_only_refl.
Qed.

(** ** The loop of [VariableDeclaration] *)

Lemma shift_length defs d defs' :
  shift defs = (d, defs') ->
  length defs' <= length defs /\ (d <> CUndefined -> length defs' < length defs).
Proof.
  destruct defs as [|x defs0]; simpl; intros [= <- <-]; split; (done || lia).
Qed.

Lemma is_str_defined c s : is_str c s = true -> c <> CUndefined.
Proof. by destruct c. Qed.

(** The loop ends within the rounds [VariableDeclaration] allows it: any
    larger number of rounds gives the same run. *)
Lemma declare_fuel arr : forall n m defs h,
  length defs < n -> length defs < m ->
  processors.declare n arr defs h = processors.declare m arr defs h.
Proof.
  induction n as [|n IH]; intros m defs h Hn Hm; [lia|].
  destruct m as [|m]; [lia|]. simpl.
  destruct (shift defs) as [decl defs1] eqn:E1.
  destruct (shift defs1) as [op defs2] eqn:E2.
  apply shift_length in E1 as [L1 _]. apply shift_length in E2 as [L2 L2'].
  unfold bind. destruct (is_str op (str "=")) eqn:Eop.
  - destruct (shift defs2) as [init defs3] eqn:E3.
    apply shift_length in E3 as [L3 _].
    destruct (assign decl k_init init h) as [[[]|e] h1]; [|done].
    unfold ret at 1 3.
    destruct (shift defs3) as [op' defs4] eqn:E4.
    apply shift_length in E4 as [L4 L4'].
    destruct (push arr decl h1) as [[[]|e] h2]; [|done].
    destruct (is_str op' (str ",")) eqn:Ec; [|done].
    apply is_str_defined, L4' in Ec. apply IH; lia.
  - destruct (assign decl k_init VNull h) as [[[]|e] h1]; [|done].
    unfold ret at 1 3.
    destruct (push arr decl h1) as [[[]|e] h2]; [|done].
    destruct (is_str op (str ",")) eqn:Ec; [|done].
    apply is_str_defined, L2' in Ec. apply IH; lia.
Qed.

(** Lookups in a store built by allocations and writes. *)
Ltac heap_lookup :=
  repeat first
    [ rewrite list_lookup_alter_ne by lia
    | rewrite list_lookup_alter_eq
    | rewrite lookup_app_l by (rewrite ?length_alter, ?length_app; simpl; lia)
    | rewrite list_lookup_middle
        by (rewrite ?length_alter, ?length_app; simpl; lia) ].

(** ** Results of single builders *)

Lemma bind_Return {A B} (m : M A) (f : A -> M B) h r h' :
  bind m f h = (Return r, h') ->
  exists a h1, m h = (Return a, h1) /\ f a h1 = (Return r, h').
Proof.
  unfold bind. destruct (m h) as [[a|e] h1]; [|done]. intros H. by exists a, h1.
Qed.

Lemma new_object_Return ps (h : heap) r h' :
  new_object ps h = (Return r, h') ->
  r = CRef (length h) /\ h' = h ++ [mkObject OPlain ps].
Proof. by intros [= <- <-]. Qed.

Lemma field_new h o k : field (h ++ [o]) (CRef (length h)) k = get_prop k (obj_props o).
Proof. unfold field. by rewrite list_lookup_middle. Qed.

Lemma has_field_new h o k :
  has_field (h ++ [o]) (CRef (length h)) k = has_prop k (obj_props o).
Proof. unfold has_field. by rewrite list_lookup_middle. Qed.

Lemma ToString_string s (h : heap) : ToString (CString s) h = (Return s, h).
Proof. unfold ToString, read. by destruct (length h). Qed.

(** C9: [ParenthesizedExpression] returns the enclosed expression itself,
    whatever the two punctuation children are, and leaves the store as it
    was; so does the registry entry called on the three children. *)
Theorem ParenthesizedExpression_identity pattern_ok program (_op exp _cp : child) (h : heap) :
  processors.ParenthesizedExpression _op exp _cp h = (Return exp, h)
  /\ processors.build pattern_ok program (str "ParenthesizedExpression") [_op; exp; _cp] h
     = (Return exp, h).
Proof. split; reflexivity. Qed.

(** C6: on [[decl1, '=', init1, ',', decl2, ';']], with [decl1] and [decl2]
    two distinct objects of the store, [VariableDeclaration] returns a node
    whose [declarations] array holds exactly [decl1] and [decl2], in this
    order, and leaves [decl1.init] equal to [init1] and [decl2.init] equal
    to [null]. *)
Theorem VariableDeclaration_folds kind (l1 l2 : loc) init1 (h : heap) :
  l1 <> l2 -> l1 < length h -> l2 < length h ->
  exists r h',
    processors.VariableDeclaration kind
      [CRef l1; CString (str "="); init1; CString (str ","); CRef l2; CString (str ";")] h
    = (Return r, h')
    /\ field h' r k_type = VStr "VariableDeclaration"
    /\ (exists a, field h' r k_declarations = VChild (CRef a)
                /\ elements h' (CRef a) = Some [CRef l1; CRef l2])
    /\ field h' (CRef l1) k_init = VChild init1
    /\ field h' (CRef l2) k_init = VNull.
Proof.
  intros Hne H1 H2.
  eexists _, _. split.
  { unfold processors.VariableDeclaration. cbn. reflexivity. }
  destruct (lookup_lt_is_Some_2 h l1 H1) as [o1 Ho1].
  destruct (lookup_lt_is_Some_2 h l2 H2) as [o2 Ho2].
  unfold field, elements.
  rewrite !length_alter, length_app, Nat.add_1_r.
  heap_lookup. simpl. split; [done|]. split.
  { exists (length h). split; [done|]. by heap_lookup. }
  split; heap_lookup; [rewrite Ho1|rewrite Ho2]; simpl; apply get_prop_set_prop_eq.
Qed.

Lemma VariableDeclaration_folds_witness :
  exists r h',
    processors.VariableDeclaration (CString (str "let"))
      [CRef 0; CString (str "="); CString (str "1"); CString (str ",");
       CRef 1; CString (str ";")]
      [mkObject OPlain [(k_type, VStr "VariableDeclarator")];
       mkObject OPlain [(k_type, VStr "VariableDeclarator")]]
    = (Return r, h')
    /\ field h' r k_type = VStr "VariableDeclaration"
    /\ (exists a, field h' r k_declarations = VChild (CRef a)
                /\ elements h' (CRef a) = Some [CRef 0; CRef 1])
    /\ field h' (CRef 0) k_init = VChild (CString (str "1"))
    /\ field h' (CRef 1) k_init = VNull.
Proof. apply VariableDeclaration_folds; simpl; lia. Defined.

Lemma includes_pair (x y a b : N) :
  includes [x; y] [a; b] = N.eqb x a && N.eqb y b.
Proof.
  cbn [includes starts_with].
  by destruct (N.eqb x a), (N.eqb y b), (N.eqb x b).
Qed.

Lemma has_update_op_short (op : jsstring) :
  length op <= 2 -> op <> str "++" -> op <> str "--" -> has_update_op op = false.
Proof.
  intros Hlen Hp Hm. unfold has_update_op.
  change (str "--") with [45%N; 45%N] in *. change (str "++") with [43%N; 43%N] in *.
  destruct op as [|a [|b [|c op]]]; [done| | |simpl in Hlen; lia].
  { cbn [includes starts_with]. by rewrite !andb_false_r. }
  rewrite !includes_pair.
  destruct (N.eqb_spec 45 a), (N.eqb_spec 45 b), (N.eqb_spec 43 a), (N.eqb_spec 43 b);
    try done; subst; first [by destruct Hp | by destruct Hm].
Qed.

Lemma starts_with_head (p s : jsstring) (c : N) :
  starts_with (c :: p) s = true -> exists s', s = c :: s'.
Proof.
  destruct s as [|b s]; simpl; [done|].
  destruct (N.eqb_spec c b) as [->|]; [|done]. by exists s.
Qed.

Lemma includes_head (p s : jsstring) (c : N) :
  includes (c :: p) s = true -> c ∈ s.
Proof.
  induction s as [|b s IH]; intros H.
  - by simpl in H.
  - change (includes (c :: p) (b :: s))
      with (starts_with (c :: p) (b :: s) || includes (c :: p) s) in H.
    apply orb_true_iff in H as [H|H].
    + apply starts_with_head in H as [s' [= -> ->]]. by left.
    + right. by apply IH.
Qed.

Lemma has_update_op_letters (op : jsstring) :
  43%N ∉ op -> 45%N ∉ op -> has_update_op op = false.
Proof.
  intros Hp Hm. unfold has_update_op.
  destruct (includes (str "--") op) eqn:E1.
  { apply includes_head in E1. done. }
  destruct (includes (str "++") op) eqn:E2; [|done].
  apply includes_head in E2. done.
Qed.

(** C7: when the first child is a string it is the operator and [prefix] is
    true; when only the second is, [prefix] is false.  The node is an
    [UpdateExpression] when the operator matches [/--|\+\+/], which [++] and
    [--] do and no other operator does (one of at most two characters, or one
    written without [+] or [-], such as [typeof]); else it is a
    [UnaryExpression].  [PostfixExpression] always gives an
    [UpdateExpression] with [prefix] false. *)
Theorem UnaryExpression_prefix_and_type :
  (forall op t2 (h : heap),
     processors.UnaryExpression (CString op) t2 h
     = (Return (CRef (length h)),
        h ++ [mkObject OPlain
                [(k_type, VStr (if has_update_op op then "UpdateExpression"
                                else "UnaryExpression"));
                 (k_prefix, VBool true); (k_operator, VChild (CString op));
                 (k_argument, VChild t2)]]))
  /\ (forall t1 op (h : heap), is_string t1 = false ->
        processors.UnaryExpression t1 (CString op) h
        = (Return (CRef (length h)),
           h ++ [mkObject OPlain
                   [(k_type, VStr (if has_update_op op then "UpdateExpression"
                                   else "UnaryExpression"));
                    (k_prefix, VBool false); (k_operator, VChild (CString op));
                    (k_argument, VChild t1)]]))
  /\ (forall op : jsstring, op = str "++" \/ op = str "--" -> has_update_op op = true)
  /\ (forall op : jsstring, op <> str "++" -> op <> str "--" ->
        (length op <= 2) \/ ((43%N ∉ op) /\ (45%N ∉ op)) -> has_update_op op = false)
  /\ (forall argument operator (h : heap),
        processors.PostfixExpression argument operator h
        = (Return (CRef (length h)),
           h ++ [mkObject OPlain
                   [(k_type, VStr "UpdateExpression"); (k_prefix, VBool false);
                    (k_operator, VChild operator); (k_argument, VChild argument)]])).
Proof.
  repeat split.
  - intros op t2 h. unfold processors.UnaryExpression, bind.
    cbn [is_string]. by rewrite ToString_string.
  - intros t1 op h Ht1. unfold processors.UnaryExpression, bind.
    by rewrite Ht1, ToString_string.
  - by intros op [-> | ->].
  - intros op Hp Hm [Hlen | [H1 H2]].
    + by apply has_update_op_short.
    + by apply has_update_op_letters.
Qed.

(** [x++], [++x] and [typeof x] with [x] the object at location 0. *)
Lemma UnaryExpression_prefix_and_type_witness :
  let x := mkObject OPlain [(k_type, VStr "Identifier"); (k_name, VStr "x")] in
  field (processors.UnaryExpression (CRef 0) (CString (str "++")) [x]).2 (CRef 1) k_type
    = VStr "UpdateExpression"
  /\ field (processors.UnaryExpression (CRef 0) (CString (str "++")) [x]).2 (CRef 1) k_prefix
    = VBool false
  /\ has_update_op (str "++") = true
  /\ has_update_op (str "typeof") = false.
Proof.
  destruct UnaryExpression_prefix_and_type as (H1 & H2 & H3 & H4 & H5).
  intros x. rewrite (H2 (CRef 0) (str "++") [x] eq_refl).
  rewrite (H3 (str "++") (or_introl eq_refl)).
  rewrite (H4 (str "typeof")); [repeat split | discriminate | discriminate |].
  right. split; intros H; repeat (apply elem_of_cons in H as [H|H]; [discriminate|]);
    by apply elem_of_nil in H.
Defined.

Lemma decimal_digit_facts c :
  is_decimal_digit c ->
  is_space c = false /\ digit_of 10 c = Some (c - 48)%N
  /\ N.eqb c 43 = false /\ N.eqb c 45 = false
  /\ N.eqb c 120 || N.eqb c 88 = false
  /\ N.eqb c 111 || N.eqb c 79 = false
  /\ N.eqb c 98 || N.eqb c 66 = false.
Proof.
  unfold is_decimal_digit. intros H.
  assert (c = 48 \/ c = 49 \/ c = 50 \/ c = 51 \/ c = 52 \/ c = 53 \/ c = 54
          \/ c = 55 \/ c = 56 \/ c = 57)%N as Hc by lia.
  repeat (destruct Hc as [-> | Hc]; [done|]). by subst.
Qed.

Lemma digits_from_decimal : forall ds acc,
  Forall is_decimal_digit ds ->
  digits_from 10 acc ds
  = Some (fold_left (fun acc c => (acc * 10 + Z.of_N (c - 48))%Z) ds acc).
Proof.
  induction ds as [|c ds IH]; intros acc H; [done|].
  apply Forall_cons in H as [Hc Hds]. simpl.
  destruct (decimal_digit_facts c Hc) as (_ & -> & _). by apply IH.
Qed.

Lemma trim_digits ds : Forall is_decimal_digit ds -> trim ds = ds.
Proof.
  intros H. unfold trim.
  assert (Hd : forall l : jsstring,
             Forall is_decimal_digit l -> drop_while is_space l = l).
  { intros [|c l] Hl; [done|]. simpl.
    by destruct (decimal_digit_facts c (Forall_inv Hl)) as (-> & _). }
  rewrite (Hd ds H), Hd; [apply rev_involutive|].
  by apply Forall_rev.
Qed.

(** [BigInt] reads a run of decimal digits as the integer it writes. *)
Lemma StringToBigInt_digits ds :
  ds <> [] -> Forall is_decimal_digit ds ->
  StringToBigInt ds = Some (decimal_value ds).
Proof.
  intros Hne H. unfold StringToBigInt. rewrite trim_digits by done.
  destruct ds as [|c ds]; [done|].
  destruct (decimal_digit_facts c (Forall_inv H)) as (_ & _ & Hp & Hm & _).
  assert (Hnd : non_decimal (c :: ds) = None).
  { destruct ds as [|p ds]; [done|].
    assert (Hd : is_decimal_digit p) by (by apply Forall_inv_tail, Forall_inv in H).
    destruct (decimal_digit_facts p Hd) as (_ & _ & _ & _ & Hx & Ho & Hb).
    unfold non_decimal. rewrite Hx, Ho, Hb. by destruct (negb _). }
  rewrite Hnd. unfold signed. rewrite Hp, Hm.
  unfold all_digits. by rewrite digits_from_decimal.
Qed.

(** *** Literals of another base *)

Lemma digit_no_space base c : is_digit_in base c -> is_space c = false.
Proof.
  unfold is_digit_in, digit_of. intros H.
  assert (Hc : (48 <= c <= 57 \/ 97 <= c <= 102 \/ 65 <= c <= 70)%N).
  { destruct (N.leb_spec 48 c), (N.leb_spec c 57); simpl in H; try lia;
      destruct (N.leb_spec 97 c), (N.leb_spec c 102); simpl in H; try lia;
      destruct (N.leb_spec 65 c), (N.leb_spec c 70); simpl in H; try lia;
      done. }
  unfold is_space. simpl. rewrite !orb_false_iff.
  repeat split; apply N.eqb_neq; lia.
Qed.

Lemma digits_from_radix base : forall ds acc,
  Forall (is_digit_in base) ds ->
  digits_from base acc ds
  = Some (fold_left
            (fun acc c => (acc * Z.of_N base + Z.of_N (default 0%N (digit_of base c)))%Z)
            ds acc).
Proof.
  induction ds as [|c ds IH]; intros acc H; [done|].
  apply Forall_cons in H as [Hc Hds]. simpl.
  unfold is_digit_in in Hc. destruct (digit_of base c) as [d|]; [|done].
  by apply IH.
Qed.

Lemma trim_no_space (s : jsstring) :
  Forall (fun c => is_space c = false) s -> trim s = s.
Proof.
  intros H. unfold trim.
  assert (Hd : forall l : jsstring,
             Forall (fun c => is_space c = false) l -> drop_while is_space l = l).
  { intros [|c l] Hl; [done|]. simpl. by rewrite (Forall_inv Hl). }
  rewrite (Hd s H), Hd; [apply rev_involutive|].
  by apply Forall_rev.
Qed.

(** [BigInt] reads [0x], [0o] and [0b] with digits of the base as the
    integer they write. *)
Lemma StringToBigInt_radix (p base : N) ds :
  (p, base) ∈ radix_prefixes ->
  ds <> [] -> Forall (is_digit_in base) ds ->
  StringToBigInt (48%N :: p :: ds) = Some (radix_value base ds).
Proof.
  intros Hp Hne Hds. unfold StringToBigInt.
  assert (Hsp : is_space p = false).
  { unfold radix_prefixes in Hp.
    repeat (apply elem_of_cons in Hp as [[= -> ->] | Hp]; [done|]).
    by apply elem_of_nil in Hp. }
  rewrite trim_no_space.
  2:{ repeat (apply Forall_cons; split; [done|]).
      eapply Forall_impl; [exact Hds|]. intros c. apply digit_no_space. }
  assert (Hall : all_digits base ds = Some (radix_value base ds)).
  { unfold all_digits. destruct ds; [done|]. by apply digits_from_radix. }
  unfold radix_prefixes in Hp.
  repeat (apply elem_of_cons in Hp as [[= -> ->] | Hp]; [exact Hall|]).
  by apply elem_of_nil in Hp.
Qed.

(** *** Decimal literals *)

Lemma span_digits_run ds rest :
  Forall is_decimal_digit ds ->
  match rest with
  | [] => True
  | c :: _ => digit_of 10 c = None
  end ->
  span_digits (ds ++ rest) = (map (fun c => (c - 48)%N) ds, rest).
Proof.
  intros Hds Hrest. induction ds as [|c ds IH].
  - destruct rest as [|c r]; [done|]. simpl. by rewrite Hrest.
  - apply Forall_cons in Hds as [Hc Hds]. simpl.
    destruct (decimal_digit_facts c Hc) as (_ & -> & _). by rewrite IH.
Qed.

Lemma digits_value_digits ds :
  digits_value (map (fun c => (c - 48)%N) ds) = decimal_value ds.
Proof.
  unfold digits_value, decimal_value. generalize 0%Z.
  induction ds as [|c ds IH]; intros acc; [done|]. simpl. apply IH.
Qed.

(** The digits [ip], a point and the digits [fp], read as the integer the
    digits write and a negative power of ten. *)
Lemma decimal_fraction ip fp :
  Forall is_decimal_digit ip -> Forall is_decimal_digit fp ->
  ip ++ fp <> [] ->
  decimal (ip ++ 46%N :: fp)
  = Some (decimal_value (ip ++ fp), (- Z.of_nat (length fp))%Z).
Proof.
  intros Hip Hfp Hne. unfold decimal.
  rewrite span_digits_run by done.
  assert (Hspan : span_digits fp = (map (fun c => (c - 48)%N) fp, [])).
  { rewrite <- (app_nil_r fp) at 1. by apply span_digits_run. }
  rewrite Hspan, <- map_app.
  destruct (map _ (ip ++ fp)) as [|d ds] eqn:E.
  { apply map_eq_nil in E. done. }
  rewrite <- E, digits_value_digits, length_map. done.
Qed.

Lemma decimal_integer ds :
  Forall is_decimal_digit ds -> ds <> [] ->
  decimal ds = Some (decimal_value ds, 0%Z).
Proof.
  intros Hds Hne. unfold decimal.
  assert (Hspan : span_digits ds = (map (fun c => (c - 48)%N) ds, [])).
  { rewrite <- (app_nil_r ds) at 1. by apply span_digits_run. }
  rewrite Hspan, app_nil_r.
  destruct (map _ ds) as [|d ds'] eqn:E.
  { apply map_eq_nil in E. done. }
  rewrite <- E, digits_value_digits. done.
Qed.

(** A digit or a point: what a plain decimal literal is written with. *)
Lemma numeral_unit_facts c :
  is_decimal_digit c \/ c = 46%N ->
  is_space c = false
  /\ N.eqb c 43 = false /\ N.eqb c 45 = false /\ c <> 73%N /\ c <> 110%N
  /\ N.eqb c 120 || N.eqb c 88 = false
  /\ N.eqb c 111 || N.eqb c 79 = false
  /\ N.eqb c 98 || N.eqb c 66 = false.
Proof.
  intros [H | ->]; [|done].
  destruct (decimal_digit_facts c H) as (? & _ & ? & ? & ? & ? & ?).
  unfold is_decimal_digit in H. repeat split; try done; lia.
Qed.

(** Unary plus reads a text of digits and at most one point as a decimal
    literal. *)
Lemma StringToNumber_decimal (s : jsstring) m e :
  s <> [] ->
  Forall (fun c => is_decimal_digit c \/ c = 46%N) s ->
  decimal s = Some (m, e) ->
  StringToNumber s = binary64 false m e.
Proof.
  intros Hne Hs Hdec. unfold StringToNumber.
  rewrite trim_no_space.
  2:{ eapply Forall_impl; [exact Hs|]. intros c Hc.
      by destruct (numeral_unit_facts c Hc). }
  destruct s as [|c s]; [done|].
  destruct (numeral_unit_facts c (Forall_inv Hs)) as (_ & Hp & Hm & HI & _).
  assert (Hnd : non_decimal (c :: s) = None).
  { destruct s as [|p s]; [done|].
    assert (Hd : is_decimal_digit p \/ p = 46%N)
      by (by apply Forall_inv_tail, Forall_inv in Hs).
    destruct (numeral_unit_facts p Hd) as (_ & _ & _ & _ & _ & Hx & Ho & Hb).
    unfold non_decimal. rewrite Hx, Ho, Hb. by destruct (negb _). }
  rewrite Hnd. unfold signed. rewrite Hp, Hm.
  assert (Hinf : jsstring_eqb (c :: s) (str "Infinity") = false).
  { apply bool_decide_eq_false. intros [= Hc _]. done. }
  by rewrite Hinf, Hdec.
Qed.

(** *** The two branches of [Number] *)

Lemma Number_BigInt (r : jsstring) (z : Z) (h : heap) :
  ends_with_n r = true -> StringToBigInt (removelast r) = Some z ->
  processors.Number (CString r) h
  = (Return (CRef (length h)), h ++ [number_literal (VBigInt z) r]).
Proof.
  intros Hn Hz. unfold processors.Number, bind, strip_n.
  by rewrite ToString_string, Hn, Hz.
Qed.

Lemma Number_double (r : jsstring) (h : heap) :
  ends_with_n r = false ->
  processors.Number (CString r) h
  = (Return (CRef (length h)), h ++ [number_literal (VNumber (StringToNumber r)) r]).
Proof.
  intros Hn. unfold processors.Number, bind.
  rewrite ToString_string, Hn. cbn [ToNumber]. unfold bind.
  by rewrite ToString_string.
Qed.

Lemma ends_with_n_snoc (s : jsstring) (c : N) :
  ends_with_n (s ++ [c]) = N.eqb c 110.
Proof. unfold ends_with_n. by rewrite last_snoc. Qed.

Lemma ends_with_n_units (s : jsstring) :
  Forall (fun c => is_decimal_digit c \/ c = 46%N) s -> ends_with_n s = false.
Proof.
  intros H. destruct s as [|c s _] using rev_ind; [done|].
  rewrite ends_with_n_snoc. apply N.eqb_neq.
  apply Forall_app in H as [_ H].
  by destruct (numeral_unit_facts c (Forall_inv H)) as (_ & _ & _ & _ & ? & _).
Qed.

(** C8, as the code has it.  On a token that ends in [n], [Number] returns
    a literal whose [raw] is the token and whose value is the big integer
    that [BigInt] reads in the token without its last character, when it
    reads one: in a run of decimal digits the integer they write, after
    [0x], [0o] or [0b] the integer the digits write in that base; when it
    reads none, [Number] throws its SyntaxError.  On a token that does not
    end in [n] the value is the double unary plus gives: for a run of
    decimal digits the double nearest to the integer they write, for digits
    with a point before the last of them the double nearest to the quotient
    by the power of ten.  So [10n] gives the big integer 10 with [raw]
    [10n], and [3.5] gives the double 7 * 2^-1. *)
Theorem Number_decodes :
  (forall (r : jsstring) (z : Z) (h : heap),
     ends_with_n r = true -> StringToBigInt (removelast r) = Some z ->
     processors.Number (CString r) h
     = (Return (CRef (length h)), h ++ [number_literal (VBigInt z) r]))
  /\ (forall (r : jsstring) (h : heap),
        ends_with_n r = true -> StringToBigInt (removelast r) = None ->
        processors.Number (CString r) h = (Throw SyntaxError, h))
  /\ (forall (ds : jsstring) (h : heap),
        ds <> [] -> Forall is_decimal_digit ds ->
        processors.Number (CString (ds ++ str "n")) h
        = (Return (CRef (length h)),
           h ++ [number_literal (VBigInt (decimal_value ds)) (ds ++ str "n")]))
  /\ (forall (p base : N) (ds : jsstring) (h : heap),
        (p, base) ∈ radix_prefixes ->
        ds <> [] -> Forall (is_digit_in base) ds ->
        processors.Number (CString (48%N :: p :: ds ++ str "n")) h
        = (Return (CRef (length h)),
           h ++ [number_literal (VBigInt (radix_value base ds))
                   (48%N :: p :: ds ++ str "n")]))
  /\ (forall (r : jsstring) (h : heap),
        ends_with_n r = false ->
        processors.Number (CString r) h
        = (Return (CRef (length h)),
           h ++ [number_literal (VNumber (StringToNumber r)) r]))
  /\ (forall (ds : jsstring) (h : heap),
        ds <> [] -> Forall is_decimal_digit ds ->
        processors.Number (CString ds) h
        = (Return (CRef (length h)),
           h ++ [number_literal (VNumber (double_of_Z (decimal_value ds))) ds]))
  /\ (forall (ip fp : jsstring) (h : heap),
        Forall is_decimal_digit ip -> Forall is_decimal_digit fp -> fp <> [] ->
        processors.Number (CString (ip ++ str "." ++ fp)) h
        = (Return (CRef (length h)),
           h ++ [number_literal
                   (VNumber (double_of_decimal (ip ++ fp) (length fp)))
                   (ip ++ str "." ++ fp)]))
  /\ processors.Number (CString (str "10n")) []
     = (Return (CRef 0),
        [mkObject OPlain [(k_type, VStr "Literal"); (k_value, VBigInt 10);
                          (k_raw, VStr "10n")]])
  /\ processors.Number (CString (str "3.5")) []
     = (Return (CRef 0),
        [mkObject OPlain [(k_type, VStr "Literal");
                          (k_value, VNumber (binary_normalize 53 1024 7 (-1) false));
                          (k_raw, VStr "3.5")]]).
Proof.
  split; [exact Number_BigInt|]. split; [|split; [|split; [|split]]].
  - intros r h Hn Hz. unfold processors.Number, bind, strip_n.
    by rewrite ToString_string, Hn, Hz.
  - intros ds h Hne Hds. change (str "n") with [110%N]. apply Number_BigInt.
    + by rewrite ends_with_n_snoc.
    + rewrite removelast_last. by apply StringToBigInt_digits.
  - intros p base ds h Hp Hne Hds. change (str "n") with [110%N].
    apply Number_BigInt.
    + by rewrite (app_comm_cons _ _ p), (app_comm_cons _ _ 48%N), ends_with_n_snoc.
    + rewrite (app_comm_cons _ _ p), (app_comm_cons _ _ 48%N), removelast_last.
      by apply StringToBigInt_radix.
  - exact Number_double.
  - split; [|split; [|by split]].
    + intros ds h Hne Hds.
      assert (Hu : Forall (fun c => is_decimal_digit c \/ c = 46%N) ds)
        by (eapply Forall_impl; [exact Hds|]; by left).
      rewrite Number_double by (by apply ends_with_n_units).
      rewrite (StringToNumber_decimal ds (decimal_value ds) 0%Z Hne Hu)
        by (by apply decimal_integer).
      unfold binary64, double_of_Z.
      destruct (decimal_value ds) as [|n|n] eqn:E; [done| |].
      * by rewrite Z.pow_0_r, Z.mul_1_r.
      * exfalso. assert (Hpos : forall l acc, (0 <= acc)%Z ->
          (0 <= fold_left (fun acc c => (acc * 10 + Z.of_N (c - 48))%Z) l acc)%Z).
        { induction l as [|c l IH]; intros acc Hacc; [done|]. simpl. apply IH. lia. }
        specialize (Hpos ds 0%Z (Z.le_refl 0)). unfold decimal_value in E. lia.
    + intros ip fp h Hip Hfp Hne. change (str ".") with [46%N]. simpl app.
      assert (Hu : Forall (fun c => is_decimal_digit c \/ c = 46%N) (ip ++ 46%N :: fp)).
      { apply Forall_app. split; [eapply Forall_impl; [exact Hip|]; by left|].
        apply Forall_cons. split; [by right|].
        eapply Forall_impl; [exact Hfp|]; by left. }
      rewrite Number_double by (by apply ends_with_n_units).
      rewrite (StringToNumber_decimal _ (decimal_value (ip ++ fp))
                 (- Z.of_nat (length fp))%Z);
        [|by destruct ip|done|].
      2:{ apply decimal_fraction; [done|done|]. by destruct ip, fp. }
      unfold binary64, double_of_decimal, double_of_ratio.
      destruct (decimal_value (ip ++ fp)) as [|n|n]; [done| |done].
      destruct (Z.leb_spec 0 (- Z.of_nat (length fp))) as [Hle|_].
      { destruct fp; [done|]. simpl length in Hle. lia. }
      by rewrite Z.opp_involutive.
Qed.

Lemma Number_decodes_witness :
  processors.Number (CString (str "0x1Fn")) []
  = (Return (CRef 0), [number_literal (VBigInt 31) (str "0x1Fn")])
  /\ processors.Number (CString (str "1.5n")) [] = (Throw SyntaxError, [])
  /\ processors.Number (CString (str "42" ++ str "n")) []
     = (Return (CRef 0),
        [number_literal (VBigInt (decimal_value (str "42"))) (str "42" ++ str "n")])
  /\ processors.Number (CString (48%N :: 98%N :: str "101" ++ str "n")) []
     = (Return (CRef 0),
        [number_literal (VBigInt (radix_value 2 (str "101")))
           (48%N :: 98%N :: str "101" ++ str "n")])
  /\ processors.Number (CString (str "1e3")) []
     = (Return (CRef 0),
        [number_literal (VNumber (StringToNumber (str "1e3"))) (str "1e3")])
  /\ processors.Number (CString (str "42")) []
     = (Return (CRef 0),
        [number_literal (VNumber (double_of_Z (decimal_value (str "42")))) (str "42")])
  /\ processors.Number (CString (str "0" ++ str "." ++ str "25")) []
     = (Return (CRef 0),
        [number_literal
           (VNumber (double_of_decimal (str "0" ++ str "25") (length (str "25"))))
           (str "0" ++ str "." ++ str "25")]).
Proof.
  destruct Number_decodes as (H1 & H2 & H3 & H4 & H5 & H6 & H7 & _).
  split; [|split; [|split; [|split; [|split; [|split]]]]].
  - apply (H1 (str "0x1Fn") 31%Z); reflexivity.
  - apply (H2 (str "1.5n")); reflexivity.
  - apply (H3 (str "42")); [discriminate|].
    repeat constructor; unfold is_decimal_digit; simpl; lia.
  - apply (H4 98%N 2%N (str "101")); [compute_done|discriminate|].
    repeat constructor; discriminate.
  - apply (H5 (str "1e3")); reflexivity.
  - apply (H6 (str "42")); [discriminate|].
    repeat constructor; unfold is_decimal_digit; simpl; lia.
  - apply (H7 (str "0") (str "25")); [| |discriminate];
      repeat constructor; unfold is_decimal_digit; simpl; lia.
Defined.

(** C8 as stated fails: [1_000n] is a number token that ends in [n], and
    [Number] returns no literal for it; [BigInt] does not read the
    separator and throws.  Unary plus does not read it either: the value of
    [1_000] is NaN. *)
Lemma Number_separator_is_no_BigInt :
  processors.Number (CString (str "1_000n")) [] = (Throw SyntaxError, [])
  /\ ~ (exists r h', processors.Number (CString (str "1_000n")) [] = (Return r, h'))
  /\ processors.Number (CString (str "1_000")) []
     = (Return (CRef 0), [number_literal (VNumber S754_nan) (str "1_000")]).
Proof.
  split; [reflexivity|]. split; [|reflexivity].
  intros (r & h' & H). vm_compute in H. discriminate H.
Qed.

(** ** Failures *)

Lemma throws_only_bind {A B} E (m : M A) (f : A -> M B) :
  throws_only E m -> (forall a, throws_only E (f a)) -> throws_only E (bind m f).
Proof.
  intros Hm Hf h e h'. unfold bind.
  destruct (m h) as [[a|e0] h1] eqn:Em.
  - apply Hf.
  - intros [= <- <-]. by eapply Hm.
Qed.

Lemma throws_only_ret {A} E (a : A) : throws_only E (ret a).
Proof. by intros h e h'. Qed.

Lemma throws_only_alloc E o : throws_only E (alloc o).
Proof. by intros h e h'. Qed.

Lemma throws_only_assign target k v :
  throws_only (fun e => e = TypeError) (assign target k v).
Proof. destruct target; intros h e h'; simpl; by intros [= <- <-]. Qed.

Lemma throws_only_push arr x : throws_only (fun e => e = TypeError) (push arr x).
Proof. destruct arr; intros h e h'; simpl; by intros [= <- <-]. Qed.

Lemma throws_only_declare arr : forall fuel defs,
  throws_only (fun e => e = TypeError) (processors.declare fuel arr defs).
Proof.
  induction fuel as [|fuel IH]; intros defs; simpl; [apply throws_only_ret|].
  destruct (shift defs) as [decl defs1]. destruct (shift defs1) as [op defs2].
  apply throws_only_bind.
  - case_match.
    + destruct (shift defs2) as [init defs3].
      apply throws_only_bind; [apply throws_only_assign|intros; apply throws_only_ret].
    + apply throws_only_bind; [apply throws_only_assign|intros; apply throws_only_ret].
  - intros [op' defs']. apply throws_only_bind; [apply throws_only_push|].
    intros _. case_match; [apply IH|apply throws_only_ret].
Qed.

(** C3, as the code has it: on the empty sequence [VariableDeclaration]
    fails, with the TypeError of the write to a missing declarator; a
    TypeError is the only error it ever throws; and the token after a
    declarator is not checked: when it is neither [,] nor [=], or is
    missing, the fold ends there and a node is returned. *)
Theorem VariableDeclaration_failures :
  (forall kind (h : heap),
     processors.VariableDeclaration kind [] h
     = (Throw TypeError, h ++ [mkObject (OArray []) []]))
  /\ (forall kind defs (h : heap) e h',
        processors.VariableDeclaration kind defs h = (Throw e, h') -> e = TypeError)
  /\ (forall kind decl more (h : heap),
        decl <> CUndefined ->
        is_str (shift more).1 (str ",") = false ->
        is_str (shift more).1 (str "=") = false ->
        exists r h', processors.VariableDeclaration kind (decl :: more) h = (Return r, h')).
Proof.
  split; [done|]. split.
  - intros kind defs. unfold processors.VariableDeclaration.
    apply throws_only_bind; [apply throws_only_alloc|]. intros arr.
    apply throws_only_bind; [apply throws_only_declare|]. intros _.
    apply throws_only_alloc.
  - intros kind decl more h Hdecl Hc He.
    unfold processors.VariableDeclaration, bind at 1.
    cbn [new_array alloc processors.declare length shift].
    destruct (shift more) as [op defs2]. simpl in Hc, He. rewrite He.
    unfold bind. destruct decl as [|s|l]; [done| |]; simpl; rewrite Hc; by eexists _, _.
Qed.

Lemma VariableDeclaration_failures_witness :
  exists r h',
    processors.VariableDeclaration (CString (str "var"))
      [CRef 0; CString (str ";"); CString (str "junk")]
      [mkObject OPlain [(k_type, VStr "VariableDeclarator")]]
    = (Return r, h').
Proof.
  destruct VariableDeclaration_failures as (_ & _ & H).
  apply H; [discriminate | reflexivity | reflexivity].
Defined.

(** C3 as stated fails: a lone declarator, with no terminator after it, is
    accepted and a node is returned; and the failure on the empty sequence
    is a TypeError, not a MalformedSequence error. *)
Lemma VariableDeclaration_unterminated_returns :
  let decl := mkObject OPlain [(k_type, VStr "VariableDeclarator")] in
  processors.VariableDeclaration (CString (str "let")) [CRef 0] [decl]
  = (Return (CRef 2),
     [mkObject OPlain [(k_type, VStr "VariableDeclarator"); (k_init, VNull)];
      mkObject (OArray [CRef 0]) [];
      mkObject OPlain [(k_type, VStr "VariableDeclaration"); (k_kind, VStr "let");
                       (k_declarations, VChild (CRef 1))]])
  /\ ~ fails_with (processors.VariableDeclaration (CString (str "let")) [CRef 0])
         [decl] (str "MalformedSequence")
  /\ ~ fails_with (processors.VariableDeclaration (CString (str "let")) [])
         [] (str "MalformedSequence").
Proof.
  intros decl. split; [reflexivity|].
  split; intros (e & h' & H & Hname); vm_compute in H;
    [discriminate H | injection H as <- <-; vm_compute in Hname; discriminate Hname].
Qed.

Lemma member_None (kind : jsstring) l :
  kind ∉ map fst l -> processors.member kind l = None.
Proof.
  induction l as [|[k f] l IH]; simpl; [done|]. intros Hnot.
  unfold jsstring_eqb. destruct (bool_decide_reflect (k = kind)) as [->|Hne].
  - destruct Hnot. by left.
  - apply IH. intros Hin. apply Hnot. by right.
Qed.

(** C4, as the code has it: for a kind that is not a member of
    [processors] (nor a name every object inherits), [processors[kind]] is
    [undefined], and calling it throws a TypeError to the caller whatever the
    children are, with the store untouched. *)
Theorem unknown_kind_throws_TypeError pattern_ok program (kind : jsstring) :
  kind ∉ map fst (processors.entries pattern_ok program) ->
  kind ∉ processors.inherited ->
  processors.lookup pattern_ok program kind = None
  /\ forall children (h : heap),
       processors.build pattern_ok program kind children h = (Throw TypeError, h).
Proof.
  intros Hnot _. unfold processors.build, processors.lookup.
  by rewrite member_None.
Qed.

Lemma unknown_kind_throws_TypeError_witness :
  processors.lookup any_pattern blank_program (str "ForStatement") = None
  /\ forall children (h : heap),
       processors.build any_pattern blank_program (str "ForStatement") children h
       = (Throw TypeError, h).
Proof.
  apply unknown_kind_throws_TypeError; compute_done.
Defined.

(** C4 as stated fails: the error of an unknown kind is the TypeError of the
    runtime; no UnsupportedNodeKind error is thrown. *)
Lemma unknown_kind_not_UnsupportedNodeKind :
  processors.build any_pattern blank_program (str "ForStatement") [CRef 0] [] = (Throw TypeError, [])
  /\ ~ fails_with (processors.build any_pattern blank_program (str "ForStatement") [CRef 0]) []
         (str "UnsupportedNodeKind").
Proof.
  split; [reflexivity|].
  intros (e & h' & H & Hname). vm_compute in H. injection H as <- <-.
  vm_compute in Hname. discriminate Hname.
Qed.

(** ** Sequences *)

(** What the five sequence builders keep: the children after the first
    that are not one of the delimiters of their own rule, in their order. *)
Lemma sequence_builders_filter (_op : child) (children : list child) (h : heap) :
  processors.ArgList _op children h
  = (Return (CRef (length h)),
     h ++ [mkObject
             (OArray (List.filter
                        (fun c => negb (is_str c (str ",")) && negb (is_str c (str ")")))
                        children)) []])
  /\ processors.ParamList _op children h
     = (Return (CRef (length h)),
        h ++ [mkObject
                (OArray (List.filter (fun c => negb (is_str c (str ")"))) children)) []])
  /\ elements (processors.ArrayExpression _op children h).2 (CRef (length h))
     = Some (List.filter
               (fun c => negb (is_str c (str ",")) && negb (is_str c (str "]")))
               children)
  /\ elements (processors.ObjectExpression _op children h).2 (CRef (length h))
     = Some (List.filter
               (fun c => negb (is_str c (str ",")) && negb (is_str c (str "}")))
               children)
  /\ elements (processors.Block _op children h).2 (CRef (length h))
     = Some (List.filter (fun c => negb (is_str c (str "}"))) children).
Proof.
  repeat split; unfold elements; simpl;
    rewrite lookup_app_l by (rewrite length_app; simpl; lia);
    by rewrite list_lookup_middle.
Qed.

(** C2 at two parameters: [ParamList] called on [( a , b )] keeps the comma
    between the parameters, which [ArgList] removes from the same
    children. *)
Theorem ParamList_keeps_comma :
  let a := mkObject OPlain [(k_type, VStr "Identifier"); (k_name, VStr "a")] in
  let b := mkObject OPlain [(k_type, VStr "Identifier"); (k_name, VStr "b")] in
  let children := [CString (str "("); CRef 0; CString (str ","); CRef 1; CString (str ")")] in
  processors.build any_pattern blank_program (str "ParamList") children [a; b]
  = (Return (CRef 2), [a; b; mkObject (OArray [CRef 0; CString (str ","); CRef 1]) []])
  /\ processors.build any_pattern blank_program (str "ArgList") children [a; b]
     = (Return (CRef 2), [a; b; mkObject (OArray [CRef 0; CRef 1]) []]).
Proof. split; reflexivity. Qed.

(** ** Writes to children *)

(** C1, as the code has it: every builder but [VariableDeclaration] leaves
    the objects of the store as they were and only adds new ones, [String]
    and [RegExp] as long as their token is no program, which [eval] would
    run; [VariableDeclaration] changes, of the objects it found in the
    store, at most the [init] property of those that occur in its
    sequence. *)
Theorem builders_frame pattern_ok program kind f children (h : heap) :
  In (kind, f) (processors.entries pattern_ok program) ->
  (kind = str "String" \/ kind = str "RegExp" -> runs_no_program (arg 0 children)) ->
  (kind <> str "VariableDeclaration" -> extends h (f children h).2)
  /\ init_only (rest 1 children) h (f children h).2.
Proof.
  intros Hin Hraw.
  destruct (decide (kind = str "VariableDeclaration")) as [->|Hne].
  - split; [done|].
    unfold processors.entries in Hin.
    repeat (destruct Hin as [Heq | Hin]; [try discriminate Heq|]);
      [|destruct Hin].
    injection Heq as <-. apply VariableDeclaration_init_only.
  - assert (He : extends h (f children h).2)
      by (by eapply (builders_allocate pattern_ok program kind f)).
    split; [done|]. by apply extends_init_only.
Qed.

Lemma builders_frame_witness :
  let decl := mkObject OPlain [(k_type, VStr "VariableDeclarator")] in
  extends [decl]
    (processors.build any_pattern blank_program (str "ExpressionStatement") [CRef 0]
       [decl]).2
  /\ extends [decl]
       (processors.build any_pattern blank_program (str "String")
          [CString (str "'a'"); CRef 0] [decl]).2
  /\ init_only [CRef 0; CString (str ";")] [decl]
       (processors.build any_pattern blank_program (str "VariableDeclaration")
          [CString (str "let"); CRef 0; CString (str ";")] [decl]).2.
Proof.
  intros decl. split; [|split].
  - refine (proj1 (builders_frame any_pattern blank_program (str "ExpressionStatement") _
                     [CRef 0] [decl] _ _) _); [| |discriminate].
    + do 10 right. left. reflexivity.
    + intros [H|H]; discriminate H.
  - refine (proj1 (builders_frame any_pattern blank_program (str "String") _
                     [CString (str "'a'"); CRef 0] [decl] _ _) _); [| |discriminate].
    + do 26 right. left. reflexivity.
    + intros _. discriminate.
  - refine (proj2 (builders_frame any_pattern blank_program (str "VariableDeclaration") _
                     [CString (str "let"); CRef 0; CString (str ";")] [decl] _ _)).
    + do 28 right. left. reflexivity.
    + intros [H|H]; discriminate H.
Defined.

(** C1 as stated fails: the declarator made by [VariableDefinition] for
    [x] is written by [VariableDeclaration], which adds [init] to it. *)
Lemma VariableDeclaration_writes_child :
  let h := (processors.VariableDefinition (CString (str "x")) []).2 in
  let h' := (processors.VariableDeclaration (CString (str "let"))
               [CRef 1; CString (str ";")] h).2 in
  h !! 1 = Some (mkObject OPlain [(k_type, VStr "VariableDeclarator");
                                  (k_id, VChild (CRef 0))])
  /\ h' !! 1 = Some (mkObject OPlain [(k_type, VStr "VariableDeclarator");
                                      (k_id, VChild (CRef 0)); (k_init, VNull)])
  /\ h' !! 1 <> h !! 1.
Proof. repeat split. discriminate. Qed.

(** ** Literals that do not decode *)







Lemma scan_regexp_closed (c : N) (s body flags : jsstring) :
  c <> 42%N -> c <> 47%N ->
  regexp_body false (c :: s) = Some (body, flags) ->
  forallb is_flag_unit flags = true ->
  scan (47%N :: c :: s) = RegExpLiteral body flags.
Proof.
  intros Hc1 Hc2 Hbody Hunits. unfold scan, scan_regexp.
  rewrite Hbody, Hunits. cbn [N.eqb Pos.eqb orb].
  destruct (N.eqb_spec c 42); [done|]. by destruct (N.eqb_spec c 47).
Qed.





(** * Further properties of the builders *)

#[local] Arguments str : simpl never.

Lemma is_str_eq s : is_str (CString s) s = true.
Proof. unfold is_str, jsstring_eqb. by apply bool_decide_eq_true_2. Qed.

Lemma is_str_true c s : is_str c s = true <-> c = CString s.
Proof.
  split; [|intros ->; apply is_str_eq].
  destruct c as [|t|l]; simpl; try done. unfold jsstring_eqb.
  intros H. by apply bool_decide_eq_true_1 in H as ->.
Qed.

Lemma is_str_false c s : is_str c s = false <-> c <> CString s.
Proof.
  rewrite <- is_str_true. by destruct (is_str c s).
Qed.

(** ** The registry *)

Lemma member_In (kind : jsstring) f l :
  NoDup (map fst l) -> In (kind, f) l -> processors.member kind l = Some f.
Proof.
  induction l as [|[k g] l IH]; simpl; [done|]. intros Hnd Hin.
  apply NoDup_cons in Hnd as [Hk Hnd]. unfold jsstring_eqb.
  destruct Hin as [[= -> ->]|Hin].
  - by rewrite bool_decide_eq_true_2.
  - rewrite bool_decide_eq_false_2; [by apply IH|].
    intros ->. apply Hk. apply list_elem_of_In, in_map_iff. by exists (kind, f).
Qed.

(** X1: the names of the registry are pairwise distinct, the six token
    kinds included, so that every entry is found under its name: looking a
    kind up gives the builder entered for it, and a call through the
    registry is a call of that builder. *)
Theorem registry_resolves pattern_ok program kind f :
  In (kind, f) (processors.entries pattern_ok program) ->
  NoDup (map fst (processors.entries pattern_ok program))
  /\ processors.lookup pattern_ok program kind = Some f
  /\ forall children (h : heap),
       processors.build pattern_ok program kind children h = f children h.
Proof.
  intros Hin.
  assert (Hnd : NoDup (map fst (processors.entries pattern_ok program))) by compute_done.
  assert (H : processors.lookup pattern_ok program kind = Some f) by (by apply member_In).
  repeat split; [done..|]. intros children h. unfold processors.build. by rewrite H.
Qed.

Lemma registry_resolves_witness :
  NoDup (map fst (processors.entries any_pattern blank_program))
  /\ processors.lookup any_pattern blank_program (str "Script")
     = Some (fun c => processors.Script c)
  /\ forall children (h : heap),
       processors.build any_pattern blank_program (str "Script") children h
       = processors.Script children h.
Proof.
  apply (registry_resolves any_pattern blank_program (str "Script") (fun c => processors.Script c)).
  do 24 right. left. reflexivity.
Defined.

(** X2: the builder of each of the six token kinds returns its first child
    as it is, [undefined] when it has none, and leaves the store alone. *)
Theorem token_kinds_pass_through pattern_ok program (kind : jsstring) children (h : heap) :
  kind ∈ token_kinds ->
  processors.build pattern_ok program kind children h = (Return (arg 0 children), h).
Proof.
  intros Hk. unfold token_kinds in Hk.
  repeat (apply elem_of_cons in Hk as [-> | Hk]; [reflexivity|]).
  by apply elem_of_nil in Hk.
Qed.

Lemma token_kinds_pass_through_witness :
  processors.build any_pattern blank_program (str "CompareOp") [CString (str "<=")] []
  = (Return (CString (str "<=")), [])
  /\ processors.build any_pattern blank_program (str "UpdateOp") [] [] = (Return CUndefined, []).
Proof.
  split.
  - apply (token_kinds_pass_through any_pattern blank_program (str "CompareOp")). compute_done.
  - apply (token_kinds_pass_through any_pattern blank_program (str "UpdateOp") []). compute_done.
Defined.

Lemma returns_ret {A} (a : A) : returns (ret a).
Proof. intros h. by eexists _, _. Qed.

Lemma returns_read {A} (f : heap -> A) : returns (read f).
Proof. intros h. by eexists _, _. Qed.

Lemma returns_alloc o : returns (alloc o).
Proof. intros h. by eexists _, _. Qed.

Lemma returns_bind {A B} (m : M A) (f : A -> M B) :
  returns m -> (forall a, returns (f a)) -> returns (bind m f).
Proof.
  intros Hm Hf h. unfold bind. destruct (Hm h) as (a & h1 & ->). apply Hf.
Qed.

Lemma returns_new_object ps : returns (new_object ps).
Proof. apply returns_alloc. Qed.

Lemma returns_new_array elems : returns (new_array elems).
Proof. apply returns_alloc. Qed.

Lemma returns_ToString c : returns (ToString c).
Proof. apply returns_read. Qed.

(** [JSON.parse] is called behind the test that lets its three texts
    through only. *)
Lemma returns_VariableName name : returns (processors.VariableName name).
Proof.
  unfold processors.VariableName. apply returns_bind; [apply returns_ToString|].
  intros s. destruct (is_keyword_literal s) eqn:E.
  - apply returns_bind; [|intros; apply returns_new_object].
    unfold is_keyword_literal in E. unfold JSON_parse.
    destruct (jsstring_eqb s (str "true")); [apply returns_ret|].
    destruct (jsstring_eqb s (str "false")); [apply returns_ret|].
    destruct (jsstring_eqb s (str "null")); [apply returns_ret|done].
  - case_match; apply returns_new_object.
Qed.

(** X3: apart from [FunctionDeclaration], [Number], [RegExp], [String] and
    [VariableDeclaration], no builder of the registry ever throws: whatever
    the children and the store, it returns.  Each of those five throws on
    some children. *)
Theorem builders_that_never_throw pattern_ok program :
  (forall kind f,
     In (kind, f) (processors.entries pattern_ok program) ->
     kind ∉ throwing_kinds ->
     forall children, returns (f children))
  /\ (forall kind : jsstring,
        kind ∈ throwing_kinds ->
        exists children (h : heap) e h',
          processors.build pattern_ok program kind children h = (Throw e, h')).
Proof.
  split.
  - intros kind f Hin Hne children. unfold processors.entries in Hin.
    repeat (destruct Hin as [Heq | Hin];
      [ injection Heq as <- <-;
        first
          [ by exfalso; apply Hne; compute_done
          | apply returns_VariableName
          | unfold processors.ArgList, processors.ArrayExpression,
              processors.AssignmentExpression, processors.BinaryExpression,
              processors.Block, processors.BooleanLiteral,
              processors.BreakStatement, processors.CallExpression,
              processors.ConditionalExpression, processors.ContinueStatement,
              processors.ExpressionStatement, processors.IfStatement,
              processors.MemberExpression, processors.ObjectExpression,
              processors.ParamList, processors.ParenthesizedExpression,
              processors.PostfixExpression, processors.Property,
              processors.PropertyName, processors.PropertyNameDefinition,
              processors.ReturnStatement, processors.Script,
              processors.SequenceExpression, processors.UnaryExpression,
              processors.VariableDefinition, processors.WhileStatement,
              processors.token;
            follow_binds @returns_bind;
            solve [ auto using returns_ret, returns_new_object, returns_new_array,
                      returns_ToString ] ]
      | ]).
    destruct Hin.
  - intros kind Hk. unfold throwing_kinds in Hk.
    apply elem_of_cons in Hk as [-> | Hk].
    { by exists [], [], TypeError, []. }
    apply elem_of_cons in Hk as [-> | Hk].
    { by exists [CString (str "1.5n")], [], SyntaxError, []. }
    apply elem_of_cons in Hk as [-> | Hk].
    { by exists [CString (str "/a/gg")], [], SyntaxError, []. }
    apply elem_of_cons in Hk as [-> | Hk].
    { by exists [CString (str "'\x'")], [], SyntaxError, []. }
    apply elem_of_cons in Hk as [-> | Hk].
    { by exists [], [], TypeError, [mkObject (OArray []) []]. }
    by apply elem_of_nil in Hk.
Qed.

Lemma builders_that_never_throw_witness :
  returns (processors.UnaryExpression (arg 0 []) (arg 1 []))
  /\ exists children (h : heap) e h',
       processors.build any_pattern blank_program (str "Number") children h = (Throw e, h').
Proof.
  destruct (builders_that_never_throw any_pattern blank_program) as [Hnever Hthrow]. split.
  - apply (Hnever (str "UnaryExpression")
             (fun c => processors.UnaryExpression (arg 0 c) (arg 1 c))).
    + do 27 right. left. reflexivity.
    + compute_done.
  - apply Hthrow. compute_done.
Defined.

(** ** Nodes *)

Lemma allocates_grows {A} (m : M A) : allocates m -> grows m.
Proof. intros Hm h. destruct (Hm h) as [new ->]. rewrite length_app. lia. Qed.

Lemma grows_ret {A} (a : A) : grows (ret a).
Proof. by intros h. Qed.

Lemma grows_bind {A B} (m : M A) (f : A -> M B) :
  grows m -> (forall a, grows (f a)) -> grows (bind m f).
Proof.
  intros Hm Hf h. unfold bind. specialize (Hm h).
  destruct (m h) as [[a|e] h1]; simpl in *; [|done].
  specialize (Hf a h1). lia.
Qed.

Lemma grows_assign target k v : grows (assign target k v).
Proof. destruct target; intros h; simpl; by rewrite ?length_alter. Qed.

Lemma grows_push arr x : grows (push arr x).
Proof. destruct arr; intros h; simpl; by rewrite ?length_alter. Qed.

Lemma grows_declare arr : forall fuel defs, grows (processors.declare fuel arr defs).
Proof.
  induction fuel as [|fuel IH]; intros defs; simpl; [apply grows_ret|].
  destruct (shift defs) as [decl defs1]. destruct (shift defs1) as [op defs2].
  apply grows_bind.
  - case_match.
    + destruct (shift defs2) as [init defs3].
      apply grows_bind; [apply grows_assign|intros; apply grows_ret].
    + apply grows_bind; [apply grows_assign|intros; apply grows_ret].
  - intros [op' defs']. apply grows_bind; [apply grows_push|].
    intros _. case_match; [apply IH|apply grows_ret].
Qed.

Lemma length_overwrite ws : forall h : heap, length (overwrite ws h) = length h.
Proof.
  induction ws as [|w ws IH]; intros h; [done|].
  unfold overwrite in *. simpl. by rewrite IH, length_insert.
Qed.

(** Whatever the text, [eval] removes no object of the store. *)
Lemma grows_eval pattern_ok program raw arguments :
  grows (eval pattern_ok program raw arguments).
Proof.
  destruct raw as [|src|l]; simpl; [apply grows_ret| |apply grows_ret].
  destruct (scan src);
    try (apply allocates_grows; follow_binds @allocates_bind;
         solve [auto using allocates_ret, allocates_throw, allocates_alloc]).
  intros h. unfold run.
  destruct (completion _); simpl; rewrite length_app, length_overwrite; lia.
Qed.

Lemma builds_node_bind {A} (m : M A) (f : A -> M child) :
  grows m -> (forall a, builds_node (f a)) -> builds_node (bind m f).
Proof.
  intros Hm Hf h r h' H. apply bind_Return in H as (a & h1 & H1 & H2).
  destruct (Hf a h1 r h' H2) as (l & ps & t & -> & Hl & Hrest).
  exists l, ps, t. split; [done|]. split; [|done].
  specialize (Hm h). rewrite H1 in Hm. simpl in Hm. lia.
Qed.

Lemma builds_node_new_object t ps :
  In t node_types -> builds_node (new_object ((k_type, VStr t) :: ps)).
Proof.
  intros Ht h r h' [= <- <-]. exists (length h), ((k_type, VStr t) :: ps), t.
  split; [done|]. split; [done|]. split; [by rewrite list_lookup_middle|].
  by split.
Qed.

Lemma builds_node_VariableDeclaration kind defs :
  builds_node (processors.VariableDeclaration kind defs).
Proof.
  unfold processors.VariableDeclaration.
  apply builds_node_bind; [apply allocates_grows, allocates_new_array|]. intros arr.
  apply builds_node_bind; [apply grows_declare|]. intros _.
  apply builds_node_new_object. simpl. tauto.
Qed.

(** X4: whenever a builder other than [ArgList], [ParamList],
    [ParenthesizedExpression] and the six token kinds returns, what it
    returns is a plain object that was not in the store before the call and
    whose [type] is one of the strings of the source: never a child passed
    on, never an object without [type]. *)
Theorem builders_return_fresh_nodes pattern_ok program kind f :
  In (kind, f) (processors.entries pattern_ok program) ->
  kind ∉ non_node_kinds ->
  forall children, builds_node (f children).
Proof.
  intros Hin Hne children. unfold processors.entries in Hin.
  repeat (destruct Hin as [Heq | Hin];
    [ injection Heq as <- <-;
      first
        [ by exfalso; apply Hne; compute_done
        | apply builds_node_VariableDeclaration
        | unfold processors.ArrayExpression,
            processors.AssignmentExpression, processors.BinaryExpression,
            processors.Block, processors.BooleanLiteral, processors.BreakStatement,
            processors.CallExpression, processors.ConditionalExpression,
            processors.ContinueStatement, processors.ExpressionStatement,
            processors.FunctionDeclaration, processors.IfStatement,
            processors.MemberExpression, processors.Number,
            processors.ObjectExpression, processors.PostfixExpression,
            processors.Property, processors.PropertyName,
            processors.PropertyNameDefinition, processors.RegExp,
            processors.ReturnStatement, processors.Script,
            processors.SequenceExpression, processors.String,
            processors.UnaryExpression, processors.VariableDefinition,
            processors.VariableName, processors.WhileStatement;
          solve
            [ repeat match goal with
                | |- builds_node (bind _ _) => apply builds_node_bind
                | |- forall _, _ => intro
                | |- builds_node
                       (new_object ((k_type, VStr (if _ then _ else _)) :: _)) =>
                    case_match
                | |- builds_node (new_object _) =>
                    apply builds_node_new_object; simpl; tauto
                | |- builds_node (match _ with _ => _ end) => case_match
                | |- grows (eval _ _ _ _) => apply grows_eval
                | |- grows _ =>
                    apply allocates_grows; follow_binds @allocates_bind;
                    solve [ auto using allocates_ret, allocates_throw,
                              allocates_new_object, allocates_new_array,
                              allocates_ToString, allocates_ToNumber,
                              allocates_get, allocates_get_source,
                              allocates_get_flags, allocates_JSON_parse ]
                end ] ]
    | ]).
  destruct Hin.
Qed.

Lemma builders_return_fresh_nodes_witness :
  fresh_node [] (CRef 0)
    [mkObject OPlain [(k_type, VStr "ThisExpression")]].
Proof.
  refine (builders_return_fresh_nodes any_pattern blank_program (str "VariableName")
            (fun c => processors.VariableName (arg 0 c)) _ _
            [CString (str "this")] [] _ _ eq_refl).
  - do 30 right. left. reflexivity.
  - compute_done.
Defined.

(** ** The declaration fold *)

Lemma write_inits_length items (h : heap) : length (write_inits items h) = length h.
Proof.
  revert h. induction items as [|it items IH]; intros h; [done|].
  unfold write_inits in *. simpl. by rewrite IH, length_alter.
Qed.

(** One round of the loop on a declarator that is an object of the store. *)
Lemma declare_item fuel (a l : loc) i rest (h : heap) done :
  length h = a -> l < a ->
  (i = None -> is_str (shift rest).1 (str "=") = false) ->
  processors.declare (S fuel) (CRef a) (CRef l :: init_tokens i ++ rest)
    (h ++ [mkObject (OArray done) []])
  = (if is_str (shift rest).1 (str ",")
     then processors.declare fuel (CRef a) (shift rest).2
     else ret tt)
      (alter (write_prop k_init (init_value i)) l h
       ++ [mkObject (OArray (done ++ [CRef l])) []]).
Proof.
  intros Ha Hl Heq.
  assert (Hpush : forall (h1 : heap) x, length h1 = a ->
            alter (append_elem x) a (h1 ++ [mkObject (OArray done) []])
            = h1 ++ [mkObject (OArray (done ++ [x])) []]).
  { intros h1 x H1. rewrite alter_app_r_alt by lia. by rewrite H1, Nat.sub_diag. }
  destruct i as [c|]; cbn [init_tokens app].
  - cbn [processors.declare shift]. rewrite is_str_eq.
    destruct (shift rest) as [op rest'] eqn:E.
    unfold bind. cbn [assign ret push fst snd].
    rewrite alter_app_l by lia. rewrite Hpush by (by rewrite length_alter). done.
  - specialize (Heq eq_refl). cbn [processors.declare shift app].
    destruct (shift rest) as [op rest'] eqn:E. cbn [fst snd] in *. rewrite Heq.
    unfold bind. cbn [assign ret push].
    rewrite alter_app_l by lia. rewrite Hpush by (by rewrite length_alter). done.
Qed.

Lemma comma_is_not_equals : is_str (CString (str ",")) (str "=") = false.
Proof. reflexivity. Qed.

Lemma declare_items (a : loc) tail : forall more first fuel (h : heap) done,
  length h = a ->
  Forall (fun it : item => it.1 < a) (first :: more) ->
  (forall it, last (first :: more) = Some it -> it.2 = None ->
     is_str (shift tail).1 (str "=") = false) ->
  processors.declare (S (length more) + fuel) (CRef a)
    (declarator_tokens first more tail) (h ++ [mkObject (OArray done) []])
  = (if is_str (shift tail).1 (str ",")
     then processors.declare fuel (CRef a) (shift tail).2
     else ret tt)
      (write_inits (first :: more) h
       ++ [mkObject (OArray (done ++ map (fun it : item => CRef it.1) (first :: more))) []]).
Proof.
  induction more as [|next more IH]; intros [l i] fuel h done Ha Hlive Heq.
  - apply Forall_inv in Hlive. cbn [declarator_tokens fst snd length Nat.add].
    rewrite declare_item; [done..|].
    intros ->. by apply (Heq (l, None)).
  - assert (Hl := Forall_inv Hlive). apply Forall_inv_tail in Hlive.
    cbn [declarator_tokens fst snd length Nat.add] in *.
    rewrite declare_item; [|done..|by intros; apply comma_is_not_equals].
    cbn [shift fst snd]. rewrite is_str_eq.
    rewrite IH; [|by rewrite length_alter|done|].
    + cbn [map write_inits fold_left fst snd]. by rewrite <- app_assoc.
    + intros it Hit. apply (Heq it). by rewrite last_cons, Hit.
Qed.

Lemma declarator_tokens_length more : forall first tail,
  S (length more) <= length (declarator_tokens first more tail).
Proof.
  induction more as [|next more IH]; intros first tail; simpl.
  - lia.
  - rewrite length_app. simpl. specialize (IH next tail). lia.
Qed.

Lemma declarator_tokens_tail_length more : forall first tail,
  S (length more) + length tail <= length (declarator_tokens first more tail).
Proof.
  induction more as [|next more IH]; intros first tail; simpl.
  - rewrite length_app. lia.
  - rewrite length_app. simpl. specialize (IH next tail). lia.
Qed.

Lemma write_inits_other items : forall (h : heap) l,
  l ∉ map fst items -> write_inits items h !! l = h !! l.
Proof.
  induction items as [|[l0 i0] items IH]; intros h l Hl; [done|].
  change (write_inits ((l0, i0) :: items) h)
    with (write_inits items (alter (write_prop k_init (init_value i0)) l0 h)).
  rewrite IH.
  - apply list_lookup_alter_ne. intros ->. apply Hl. by left.
  - intros Hin. apply Hl. by right.
Qed.

Lemma write_inits_lookup items : forall (h : heap) l i,
  NoDup (map fst items) -> (l, i) ∈ items ->
  write_inits items h !! l = write_prop k_init (init_value i) <$> h !! l.
Proof.
  induction items as [|[l0 i0] items IH]; intros h l i Hnd Hin.
  { by apply elem_of_nil in Hin. }
  change (write_inits ((l0, i0) :: items) h)
    with (write_inits items (alter (write_prop k_init (init_value i0)) l0 h)).
  apply NoDup_cons in Hnd as [Hl0 Hnd].
  apply elem_of_cons in Hin as [[= -> ->] | Hin].
  - rewrite write_inits_other by done. apply list_lookup_alter_eq.
  - rewrite (IH _ l i) by done. f_equal. apply list_lookup_alter_ne.
    intros ->. apply Hl0. apply list_elem_of_fmap. by exists (l, i).
Qed.

(** X5: on the children [d1 (= i1)? , ... , dn (= in)?] followed by
    anything that does not begin with [,] or [=] (a terminator, or nothing
    at all), with every [d] an object of the store, [VariableDeclaration]
    returns a node whose [declarations] array holds the declarators, all of
    them and in their order, and has written to each its initializer, or
    [null] if it has none; with pairwise distinct declarators each ends with
    its own [init]. *)
Theorem VariableDeclaration_folds_every_declarator
    kind (first : item) (more : list item) (tail : list child) (h : heap) :
  Forall (fun it : item => it.1 < length h) (first :: more) ->
  is_str (shift tail).1 (str ",") = false ->
  is_str (shift tail).1 (str "=") = false ->
  let items := first :: more in
  let h' := write_inits items h
            ++ [mkObject (OArray (map (fun it : item => CRef it.1) items)) [];
                mkObject OPlain [(k_type, VStr "VariableDeclaration");
                                 (k_kind, VChild kind);
                                 (k_declarations, VChild (CRef (length h)))]] in
  processors.VariableDeclaration kind (declarator_tokens first more tail) h
  = (Return (CRef (S (length h))), h')
  /\ (NoDup (map fst items) ->
      forall l i, (l, i) ∈ items -> field h' (CRef l) k_init = init_value i).
Proof.
  intros Hlive Hcomma Heq items h'. split.
  - unfold processors.VariableDeclaration, bind at 1. cbn [new_array alloc].
    pose proof (declarator_tokens_length more first tail) as Hlen.
    replace (S (length (declarator_tokens first more tail)))
      with (S (length more)
            + (S (length (declarator_tokens first more tail)) - S (length more)))
      by lia.
    unfold bind.
    rewrite (declare_items (length h) tail more first _ h []); [|done..|by intros].
    rewrite Hcomma. unfold ret, new_object, alloc.
    rewrite length_app, write_inits_length. cbn [length].
    rewrite Nat.add_1_r. unfold h'. by rewrite <- app_assoc.
  - intros Hnd l i Hin. unfold field, h'.
    assert (Hl : l < length h).
    { rewrite Forall_forall in Hlive. by apply (Hlive (l, i)). }
    rewrite lookup_app_l by (by rewrite write_inits_length).
    rewrite (write_inits_lookup _ _ l i) by done.
    destruct (lookup_lt_is_Some_2 h l Hl) as [o ->]. simpl.
    apply get_prop_set_prop_eq.
Qed.

Lemma VariableDeclaration_folds_every_declarator_witness :
  let d := mkObject OPlain [(k_type, VStr "VariableDeclarator")] in
  let h' := (processors.VariableDeclaration (CString (str "let"))
               [CRef 0; CString (str ","); CRef 2; CString (str "=");
                CString (str "7"); CString (str ","); CRef 1; CString (str ";")]
               [d; d; d]).2 in
  elements h' (CRef 3) = Some [CRef 0; CRef 2; CRef 1]
  /\ field h' (CRef 2) k_init = VStr "7"
  /\ field h' (CRef 1) k_init = VNull.
Proof.
  intros d h'.
  destruct (VariableDeclaration_folds_every_declarator (CString (str "let"))
              (0, None) [(2, Some (CString (str "7"))); (1, None)]
              [CString (str ";")] [d; d; d])
    as [Hrun Hinit];
    [ repeat constructor; simpl; lia | reflexivity | reflexivity | ].
  unfold h'.
  change [CRef 0; CString (str ","); CRef 2; CString (str "=");
          CString (str "7"); CString (str ","); CRef 1; CString (str ";")]
    with (declarator_tokens (0, None) [(2, Some (CString (str "7"))); (1, None)]
            [CString (str ";")]).
  rewrite Hrun. cbn [snd]. split; [reflexivity|].
  assert (Hnd : NoDup [0; 2; 1]) by compute_done.
  split.
  - apply (Hinit Hnd 2 (Some (CString (str "7")))). right. left.
  - apply (Hinit Hnd 1 None). right. right. left.
Defined.

(** X6: when the children end in a comma after the last declarator, the
    fold asks for one more declarator, finds none and throws a TypeError; by
    then every declarator of the sequence has had its [init] written, and
    those writes stay in the store. *)
Theorem VariableDeclaration_trailing_comma
    kind (first : item) (more : list item) (h : heap) :
  Forall (fun it : item => it.1 < length h) (first :: more) ->
  processors.VariableDeclaration kind
    (declarator_tokens first more [CString (str ",")]) h
  = (Throw TypeError,
     write_inits (first :: more) h
     ++ [mkObject (OArray (map (fun it : item => CRef it.1) (first :: more))) []]).
Proof.
  intros Hlive.
  unfold processors.VariableDeclaration, bind at 1. cbn [new_array alloc].
  pose proof (declarator_tokens_tail_length more first [CString (str ",")]) as Hlen.
  cbn [length] in Hlen.
  replace (S (length (declarator_tokens first more [CString (str ",")])))
    with (S (length more)
          + S (length (declarator_tokens first more [CString (str ",")])
               - S (length more)))
    by lia.
  unfold bind.
  rewrite (declare_items (length h) _ more first _ h []);
    [|done..|by intros; apply comma_is_not_equals].
  cbn [shift fst snd]. rewrite is_str_eq. reflexivity.
Qed.

Lemma VariableDeclaration_trailing_comma_witness :
  let d := mkObject OPlain [(k_type, VStr "VariableDeclarator")] in
  processors.VariableDeclaration (CString (str "let"))
    [CRef 0; CString (str "="); CString (str "1"); CString (str ",")] [d]
  = (Throw TypeError,
     [mkObject OPlain [(k_type, VStr "VariableDeclarator"); (k_init, VStr "1")];
      mkObject (OArray [CRef 0]) []]).
Proof.
  intros d.
  apply (VariableDeclaration_trailing_comma (CString (str "let"))
           (0, Some (CString (str "1"))) [] [d]).
  repeat constructor.
Defined.

(** X15: the bound on the rounds of the loop never cuts a run short: with
    any larger bound [VariableDeclaration] does the same, on every list of
    children. *)
Theorem VariableDeclaration_loop_ends kind defs (n : nat) (h : heap) :
  length defs < n ->
  (do declarations <- new_array [];
   do _ <- processors.declare n declarations defs;
   new_object [(k_type, VStr "VariableDeclaration"); (k_kind, VChild kind);
               (k_declarations, VChild declarations)]) h
  = processors.VariableDeclaration kind defs h.
Proof.
  intros Hn. unfold processors.VariableDeclaration, bind.
  cbn [new_array alloc].
  by rewrite (declare_fuel _ n (S (length defs))) by lia.
Qed.

Lemma VariableDeclaration_loop_ends_witness :
  (do declarations <- new_array [];
   do _ <- processors.declare 40 declarations [CString (str ","); CString (str ",")];
   new_object [(k_type, VStr "VariableDeclaration");
               (k_kind, VChild (CString (str "var")));
               (k_declarations, VChild declarations)]) []
  = processors.VariableDeclaration (CString (str "var"))
      [CString (str ","); CString (str ",")] [].
Proof. apply VariableDeclaration_loop_ends. simpl. lia. Defined.

(** ** Single builders *)

(** X7: [FunctionDeclaration] takes the [id] of the definition it is given
    and does not copy it: after [VariableDefinition] has made a declarator
    for a name, the function node built from that declarator has as [id]
    the very Identifier object of the declarator, with [async] and
    [generator] false.  Called without a definition it throws a TypeError
    and leaves the store alone. *)
Theorem FunctionDeclaration_shares_id (name _kw params body : child) (h : heap) :
  let id := mkObject OPlain [(k_type, VStr "Identifier"); (k_name, VChild name)] in
  let def := mkObject OPlain [(k_type, VStr "VariableDeclarator");
                              (k_id, VChild (CRef (length h)))] in
  processors.VariableDefinition name h
  = (Return (CRef (1 + length h)), h ++ [id; def])
  /\ processors.FunctionDeclaration _kw (CRef (1 + length h)) params body
       (h ++ [id; def])
     = (Return (CRef (2 + length h)),
        h ++ [id; def;
              mkObject OPlain
                [(k_type, VStr "FunctionDeclaration");
                 (k_id, VChild (CRef (length h)));
                 (k_params, VChild params); (k_body, VChild body);
                 (k_async, VBool false); (k_generator, VBool false)]])
  /\ (forall (h0 : heap),
        processors.FunctionDeclaration _kw CUndefined params body h0
        = (Throw TypeError, h0)).
Proof.
  intros id def. repeat split.
  - unfold processors.VariableDefinition, bind, new_object, alloc.
    rewrite length_app, <- app_assoc. simpl. by rewrite Nat.add_1_r.
  - unfold processors.FunctionDeclaration, bind, get, read, new_object, alloc.
    rewrite lookup_app_r by lia.
    replace (1 + length h - length h) with 1 by lia. simpl.
    rewrite length_app, <- app_assoc. simpl.
    by rewrite (Nat.add_comm (length h) 2).
Qed.

(** X8: the node of [IfStatement] always has [alternate], and never as
    [undefined]: with no else branch among the children it is [null], and
    with one it is that child. *)
Theorem IfStatement_alternate pattern_ok program children (h : heap) :
  exists alternate,
    processors.build pattern_ok program (str "IfStatement") children h
    = (Return (CRef (length h)),
       h ++ [mkObject OPlain
               [(k_type, VStr "IfStatement"); (k_test, VChild (arg 1 children));
                (k_consequent, VChild (arg 2 children)); (k_alternate, alternate)]])
    /\ alternate <> VChild CUndefined
    /\ (length children <= 4 -> alternate = VNull)
    /\ (arg 4 children <> CUndefined -> alternate = VChild (arg 4 children)).
Proof.
  change (processors.build pattern_ok program (str "IfStatement") children h)
    with (processors.IfStatement (arg 0 children) (arg 1 children) (arg 2 children)
            (arg 3 children) (arg 4 children) h).
  unfold processors.IfStatement.
  assert (Hshort : length children <= 4 -> arg 4 children = CUndefined).
  { intros Hlen. unfold arg. by apply nth_overflow. }
  eexists. split; [reflexivity|].
  destruct (arg 4 children); repeat split; try done; intros Hlen;
    by specialize (Hshort Hlen).
Qed.

Lemma IfStatement_alternate_witness :
  exists alternate,
    processors.build any_pattern blank_program (str "IfStatement")
      [CString (str "if"); CRef 0; CRef 1] []
    = (Return (CRef 0),
       [mkObject OPlain
          [(k_type, VStr "IfStatement"); (k_test, VChild (CRef 0));
           (k_consequent, VChild (CRef 1)); (k_alternate, alternate)]])
    /\ alternate = VNull.
Proof.
  destruct (IfStatement_alternate any_pattern blank_program
              [CString (str "if"); CRef 0; CRef 1] [])
    as (alternate & Hrun & _ & Hshort & _).
  exists alternate. split; [exact Hrun|]. apply Hshort. simpl. lia.
Defined.

(** X9: the [label] of a [BreakStatement] or [ContinueStatement] node is
    never the [;] token: it is [null] when the second child is [;], that
    child when it is anything else, and [undefined] when the statement has
    no second child. *)
Theorem BreakStatement_label pattern_ok program (kind : string) children (h : heap) :
  kind = "BreakStatement"%string \/ kind = "ContinueStatement"%string ->
  exists label,
    processors.build pattern_ok program (str kind) children h
    = (Return (CRef (length h)),
       h ++ [mkObject OPlain [(k_type, VStr kind); (k_label, label)]])
    /\ label <> VChild (CString (str ";"))
    /\ (arg 1 children = CString (str ";") -> label = VNull)
    /\ (arg 1 children <> CString (str ";") -> label = VChild (arg 1 children))
    /\ (length children <= 1 -> label = VChild CUndefined).
Proof.
  assert (Hshort : length children <= 1 -> arg 1 children = CUndefined).
  { intros Hlen. unfold arg. by apply nth_overflow. }
  intros [-> | ->].
  - change (processors.build pattern_ok program (str "BreakStatement") children h)
      with (processors.BreakStatement (arg 0 children) (arg 1 children) h).
    unfold processors.BreakStatement.
    eexists. split; [reflexivity|].
    destruct (is_str (arg 1 children) (str ";")) eqn:E.
    + apply is_str_true in E. repeat split; try done.
      intros Hlen. rewrite (Hshort Hlen) in E. done.
    + apply is_str_false in E. repeat split; try congruence.
      intros Hlen. by rewrite (Hshort Hlen).
  - change (processors.build pattern_ok program (str "ContinueStatement") children h)
      with (processors.ContinueStatement (arg 0 children) (arg 1 children) h).
    unfold processors.ContinueStatement.
    eexists. split; [reflexivity|].
    destruct (is_str (arg 1 children) (str ";")) eqn:E.
    + apply is_str_true in E. repeat split; try done.
      intros Hlen. rewrite (Hshort Hlen) in E. done.
    + apply is_str_false in E. repeat split; try congruence.
      intros Hlen. by rewrite (Hshort Hlen).
Qed.

Lemma BreakStatement_label_witness :
  exists label,
    processors.build any_pattern blank_program (str "ContinueStatement")
      [CString (str "continue")] []
    = (Return (CRef 0),
       [mkObject OPlain [(k_type, VStr "ContinueStatement"); (k_label, label)]])
    /\ label = VChild CUndefined.
Proof.
  destruct (BreakStatement_label any_pattern blank_program "ContinueStatement"
              [CString (str "continue")] [] (or_intror eq_refl))
    as (label & Hrun & _ & _ & _ & Hshort).
  exists label. split; [exact Hrun|]. apply Hshort. simpl. lia.
Defined.

Lemma has_logical_op_short (op : jsstring) :
  length op <= 2 -> op <> str "&&" -> op <> str "||" -> op <> str "??" ->
  has_logical_op op = false.
Proof.
  intros Hlen Ha Ho Hq. unfold has_logical_op.
  change (str "&&") with [38%N; 38%N] in *. change (str "||") with [124%N; 124%N] in *.
  change (str "??") with [63%N; 63%N] in *.
  destruct op as [|a [|b [|c op]]]; [done| | |simpl in Hlen; lia].
  { cbn [includes starts_with]. by rewrite !andb_false_r. }
  rewrite !includes_pair.
  destruct (N.eqb_spec 38 a), (N.eqb_spec 38 b), (N.eqb_spec 124 a),
    (N.eqb_spec 124 b), (N.eqb_spec 63 a), (N.eqb_spec 63 b);
    try done; subst; first [by destruct Ha | by destruct Ho | by destruct Hq].
Qed.

Lemma has_logical_op_chars (op : jsstring) :
  38%N ∉ op -> 124%N ∉ op -> 63%N ∉ op -> has_logical_op op = false.
Proof.
  intros Ha Ho Hq. unfold has_logical_op.
  destruct (includes (str "&&") op) eqn:E1; [by apply includes_head in E1|].
  destruct (includes (str "||") op) eqn:E2; [by apply includes_head in E2|].
  destruct (includes (str "??") op) eqn:E3; [by apply includes_head in E3|done].
Qed.

(** X10: [BinaryExpression] keeps the operator and both operands, and makes
    a [LogicalExpression] when the operator matches [/&&|\|\||\?\?/], which
    [&&], [||] and [??] do and no other operator of at most two characters,
    or written without [&], [|] and [?], does; else it makes a
    [BinaryExpression]. *)
Theorem BinaryExpression_logical_or_binary :
  (forall left op right (h : heap),
     processors.BinaryExpression left (CString op) right h
     = (Return (CRef (length h)),
        h ++ [mkObject OPlain
                [(k_type, VStr (if has_logical_op op then "LogicalExpression"
                                else "BinaryExpression"));
                 (k_operator, VChild (CString op)); (k_left, VChild left);
                 (k_right, VChild right)]]))
  /\ (forall op : jsstring,
        op = str "&&" \/ op = str "||" \/ op = str "??" -> has_logical_op op = true)
  /\ (forall op : jsstring,
        op <> str "&&" -> op <> str "||" -> op <> str "??" ->
        (length op <= 2) \/ ((38%N ∉ op) /\ (124%N ∉ op) /\ (63%N ∉ op)) ->
        has_logical_op op = false).
Proof.
  repeat split.
  - intros left op right h. unfold processors.BinaryExpression, bind.
    by rewrite ToString_string.
  - by intros op [-> | [-> | ->]].
  - intros op Ha Ho Hq [Hlen | (H1 & H2 & H3)].
    + by apply has_logical_op_short.
    + by apply has_logical_op_chars.
Qed.

Lemma BinaryExpression_logical_or_binary_witness :
  has_logical_op (str "??") = true
  /\ has_logical_op (str "|") = false
  /\ has_logical_op (str "instanceof") = false.
Proof.
  destruct BinaryExpression_logical_or_binary as (_ & Hyes & Hno).
  split; [apply Hyes; auto|]. split.
  - apply Hno; [discriminate..|]. left. simpl. lia.
  - apply Hno; [discriminate..|]. right. repeat split; compute_done.
Defined.

Lemma filter_sublist {A} (p : A -> bool) l : List.filter p l `sublist_of` l.
Proof.
  induction l as [|a l IH]; simpl; [constructor|].
  destruct (p a); by constructor.
Qed.

Lemma filter_kept delimiters (p : child -> bool) input :
  (forall c, p c = true <-> forall d, d ∈ delimiters -> c <> CString d) ->
  kept delimiters input (List.filter p input).
Proof.
  intros Hp. split; [apply filter_sublist|]. intros c.
  rewrite !list_elem_of_In, filter_In, <- list_elem_of_In, Hp. tauto.
Qed.

Lemma not_one c (d : jsstring) :
  negb (is_str c d) = true <-> forall d', d' ∈ [d] -> c <> CString d'.
Proof.
  rewrite negb_true_iff, is_str_false. split.
  - intros H d' Hd'. apply list_elem_of_singleton in Hd' as ->. done.
  - intros H. apply H. by left.
Qed.

Lemma not_two c (d1 d2 : jsstring) :
  negb (is_str c d1) && negb (is_str c d2) = true
  <-> forall d', d' ∈ [d1; d2] -> c <> CString d'.
Proof.
  rewrite andb_true_iff, !negb_true_iff, !is_str_false. split.
  - intros [H1 H2] d' Hd'.
    apply elem_of_cons in Hd' as [-> | Hd']; [done|].
    apply list_elem_of_singleton in Hd' as ->. done.
  - intros H. split; apply H; [by left | right; by left].
Qed.

(** X11: the list that [ArgList], [ArrayExpression], [ObjectExpression],
    [Block] and [SequenceExpression] keep is a subsequence of the children
    they filter, and holds exactly those that are none of the delimiters of
    the rule: [,] and the closing bracket of the rule, [}] alone for
    [Block], [,] alone for [SequenceExpression]. *)
Theorem sequence_builders_keep (_op : child) (children : list child) (h : heap) :
  (exists out,
     processors.ArgList _op children h
     = (Return (CRef (length h)), h ++ [mkObject (OArray out) []])
     /\ kept [str ","; str ")"] children out)
  /\ (exists out,
        elements (processors.ArrayExpression _op children h).2 (CRef (length h))
        = Some out
        /\ kept [str ","; str "]"] children out)
  /\ (exists out,
        elements (processors.ObjectExpression _op children h).2 (CRef (length h))
        = Some out
        /\ kept [str ","; str "}"] children out)
  /\ (exists out,
        elements (processors.Block _op children h).2 (CRef (length h)) = Some out
        /\ kept [str "}"] children out)
  /\ (exists out,
        elements (processors.SequenceExpression children h).2 (CRef (length h))
        = Some out
        /\ kept [str ","] children out).
Proof.
  destruct (sequence_builders_filter _op children h) as (H1 & _ & H3 & H4 & H5).
  repeat split.
  - eexists. split; [exact H1|]. apply filter_kept. intros c. apply not_two.
  - eexists. split; [exact H3|]. apply filter_kept. intros c. apply not_two.
  - eexists. split; [exact H4|]. apply filter_kept. intros c. apply not_two.
  - eexists. split; [exact H5|]. apply filter_kept. intros c. apply not_one.
  - eexists. split.
    + unfold elements, processors.SequenceExpression, bind. simpl.
      rewrite lookup_app_l by (rewrite length_app; simpl; lia).
      by rewrite list_lookup_middle.
    + apply filter_kept. intros c. apply not_one.
Qed.

Lemma sequence_builders_keep_witness :
  exists out,
    processors.ArgList (CString (str "("))
      [CRef 0; CString (str ","); CRef 1; CString (str ")")] []
    = (Return (CRef 0), [mkObject (OArray out) []])
    /\ CRef 1 ∈ out /\ CString (str ",") ∉ out.
Proof.
  destruct (sequence_builders_keep (CString (str "("))
              [CRef 0; CString (str ","); CRef 1; CString (str ")")] [])
    as ((out & Hrun & _ & Hkept) & _).
  exists out. split; [exact Hrun|]. split.
  - apply Hkept. split; [right; right; left|]. by intros d Hd.
  - intros Hin. apply Hkept in Hin as [_ Hin].
    apply (Hin (str ",")); [left|done].
Defined.

Lemma decode_literal_units q body rest :
  Forall (literal_unit q) body ->
  decode q Plain (body ++ q :: rest) = Some (body, rest).
Proof.
  induction body as [|c body IH]; intros H.
  - simpl. unfold plain_step. by rewrite N.eqb_refl.
  - apply Forall_cons in H as [(Hq & Hb & Hn & Hr) H].
    cbn [app decode step]. unfold plain_step.
    apply N.eqb_neq in Hq, Hb, Hn, Hr. rewrite Hq, Hb, Hn, Hr. simpl.
    by rewrite IH.
Qed.

Lemma scan_string_units (q : N) (body : jsstring) :
  q = 34%N \/ q = 39%N ->
  Forall (literal_unit q) body ->
  scan (q :: body ++ [q]) = StringLiteral body.
Proof.
  intros Hq Hbody. unfold scan. rewrite decode_literal_units by done.
  by destruct Hq as [-> | ->].
Qed.

Lemma String_literal_run pattern_ok program (src v : jsstring) arguments (h : heap) :
  scan src = StringLiteral v ->
  processors.String pattern_ok program (CString src) arguments h
  = (Return (CRef (length h)),
     h ++ [mkObject OPlain
             [(k_type, VStr "Literal"); (k_value, VChild (CString v));
              (k_raw, VChild (CString src))]]).
Proof. intros Hscan. unfold processors.String, bind, eval. by rewrite Hscan. Qed.

(** X12: a string token with no backslash, no line feed or carriage return
    and no quote of its own kind between its quotes decodes to that very
    text, whichever of the two quotes it uses; [raw] keeps the token. *)
Theorem String_without_escapes pattern_ok program (q : N) (body : jsstring)
    (arguments : list child) (h : heap) :
  q = 34%N \/ q = 39%N ->
  Forall (literal_unit q) body ->
  processors.String pattern_ok program (CString (q :: body ++ [q])) arguments h
  = (Return (CRef (length h)),
     h ++ [mkObject OPlain
             [(k_type, VStr "Literal"); (k_value, VChild (CString body));
              (k_raw, VChild (CString (q :: body ++ [q])))]]).
Proof.
  intros Hq Hbody. by apply String_literal_run, scan_string_units.
Qed.

Lemma String_without_escapes_witness :
  processors.String any_pattern blank_program (CString (str "'a b'"))
    [CString (str "'a b'")] []
  = (Return (CRef 0),
     [mkObject OPlain [(k_type, VStr "Literal"); (k_value, VStr "a b");
                       (k_raw, VStr "'a b'")]]).
Proof.
  apply (String_without_escapes any_pattern blank_program 39%N (str "a b") _ []);
    [by right|].
  repeat constructor; discriminate.
Defined.

Lemma regexp_body_units body flags :
  Forall pattern_unit body ->
  regexp_body false (body ++ 47%N :: flags) = Some (body, flags).
Proof.
  induction body as [|c body IH]; intros H.
  - reflexivity.
  - apply Forall_cons in H as [(Hs & Hb & Hk & Hl) H].
    cbn [app regexp_body]. rewrite Hl.
    apply N.eqb_neq in Hs, Hb, Hk. rewrite Hs, Hb, Hk. simpl.
    destruct (N.eqb c 93); by rewrite IH.
Qed.

(** Valid flags are letters. *)
Lemma flags_ok_flag_units flags :
  flags_ok flags = true -> forallb is_flag_unit flags = true.
Proof.
  unfold flags_ok. intros H.
  apply andb_true_iff in H as [H _]. apply andb_true_iff in H as [Hall _].
  rewrite forallb_forall in Hall |- *. intros c Hc.
  apply Hall, bool_decide_eq_true_1 in Hc.
  repeat (apply elem_of_cons in Hc as [-> | Hc]; [done|]).
  by apply elem_of_nil in Hc.
Qed.

Lemma flags_getter_permutation flags :
  flags_ok flags = true -> flags_getter flags ≡ₚ flags.
Proof.
  unfold flags_ok. intros H.
  apply andb_true_iff in H as [H _]. apply andb_true_iff in H as [Hall Hnd].
  apply bool_decide_eq_true_1 in Hnd.
  apply NoDup_Permutation; [|done|].
  - unfold flags_getter. apply NoDup_ListNoDup, List.NoDup_filter, NoDup_ListNoDup.
    compute_done.
  - intros x. unfold flags_getter.
    rewrite !list_elem_of_In, filter_In, <- !list_elem_of_In.
    rewrite bool_decide_eq_true. split; [tauto|]. intros Hx. split; [|done].
    rewrite forallb_forall in Hall. apply list_elem_of_In in Hx.
    by apply Hall, bool_decide_eq_true_1 in Hx.
Qed.

(** [RegExp] on a text that is one regular expression which compiles. *)
Lemma RegExp_literal_run pattern_ok program (src body flags : jsstring) arguments
    (h : heap) :
  scan src = RegExpLiteral body flags ->
  flags_ok flags = true ->
  pattern_ok flags body = true ->
  processors.RegExp pattern_ok program (CString src) arguments h
  = (Return (CRef (2 + length h)),
     h ++ [mkObject (ORegExp body flags) [];
           mkObject OPlain [(k_pattern, VChild (CString body));
                            (k_flags, VChild (CString (flags_getter flags)))];
           mkObject OPlain [(k_type, VStr "Literal"); (k_raw, VChild (CString src));
                            (k_value, VChild (CRef (length h)));
                            (k_regex, VChild (CRef (1 + length h)))]]).
Proof.
  intros Hscan Hflags Hpat.
  unfold processors.RegExp, eval. rewrite Hscan, Hflags, Hpat.
  unfold bind. cbn [andb alloc ret get_source get_flags read new_object].
  rewrite !list_lookup_middle by done. simpl.
  rewrite !length_app. simpl. rewrite <- !app_assoc. simpl.
  unfold new_object, alloc. rewrite length_app, <- app_assoc. simpl.
  by rewrite Nat.add_1_r, (Nat.add_comm (length h) 2).
Qed.

(** X13: on a regular-expression token whose pattern has no slash,
    backslash, opening bracket or line terminator and does not begin with
    [*], with valid flags and a pattern the engine accepts, [RegExp]
    allocates the expression, then a record with the pattern as written and
    the flags, then the literal that points to both; the flags of the record
    are those of the token, put in the order of the [flags] accessor. *)
Theorem RegExp_of_valid_literal pattern_ok program (c : N) (body flags : jsstring)
    (arguments : list child) (h : heap) :
  c <> 42%N ->
  Forall pattern_unit (c :: body) ->
  flags_ok flags = true ->
  pattern_ok flags (c :: body) = true ->
  let raw := CString (47%N :: (c :: body) ++ 47%N :: flags) in
  processors.RegExp pattern_ok program raw arguments h
  = (Return (CRef (2 + length h)),
     h ++ [mkObject (ORegExp (c :: body) flags) [];
           mkObject OPlain [(k_pattern, VChild (CString (c :: body)));
                            (k_flags, VChild (CString (flags_getter flags)))];
           mkObject OPlain [(k_type, VStr "Literal"); (k_raw, VChild raw);
                            (k_value, VChild (CRef (length h)));
                            (k_regex, VChild (CRef (1 + length h)))]])
  /\ flags_getter flags ≡ₚ flags.
Proof.
  intros Hstar Hbody Hflags Hpat raw. split; [|by apply flags_getter_permutation].
  apply RegExp_literal_run; [|done|done].
  apply scan_regexp_closed; [done|by destruct (Forall_inv Hbody)| |].
  - apply (regexp_body_units (c :: body) flags Hbody).
  - by apply flags_ok_flag_units.
Qed.

Lemma RegExp_of_valid_literal_witness :
  processors.RegExp any_pattern blank_program (CString (str "/ab/yg"))
    [CString (str "/ab/yg")] []
  = (Return (CRef 2),
     [mkObject (ORegExp (str "ab") (str "yg")) [];
      mkObject OPlain [(k_pattern, VStr "ab"); (k_flags, VStr "gy")];
      mkObject OPlain [(k_type, VStr "Literal"); (k_raw, VStr "/ab/yg");
                       (k_value, VChild (CRef 0)); (k_regex, VChild (CRef 1))]])
  /\ flags_getter (str "yg") ≡ₚ str "yg".
Proof.
  apply (RegExp_of_valid_literal any_pattern blank_program 97%N (str "b") (str "yg") _ []);
    [ discriminate | | reflexivity | reflexivity ].
  repeat constructor; discriminate.
Defined.

(** ** Literals and [raw] *)

(** A text that is no program leaves [raw] as it is. *)
Lemma eval_no_program pattern_ok program raw arguments (h : heap) v r h' :
  runs_no_program raw ->
  eval pattern_ok program raw arguments h = (Return (v, r), h') ->
  r = VChild raw.
Proof.
  intros Hraw. destruct raw as [|src|l]; simpl in *; try by intros [= _ <- _].
  destruct (scan src); try by intros [= _ <- _].
  - destruct (_ && _); [by intros [= _ <- _]|done].
  - done.
Qed.

Lemma raw_of_last (h new : heap) ps (raw : child) :
  has_prop k_raw ps = true -> get_prop k_raw ps = VChild raw ->
  has_field (h ++ new ++ [mkObject OPlain ps]) (CRef (length new + length h)) k_raw = true
  /\ field (h ++ new ++ [mkObject OPlain ps]) (CRef (length new + length h)) k_raw
     = VChild raw.
Proof.
  intros Hhas Hget. rewrite app_assoc.
  replace (length new + length h) with (length (h ++ new))
    by (rewrite length_app; lia).
  by rewrite has_field_new, field_new.
Qed.

(** C10: on [true], [false] and [null], [VariableName] returns a literal
    made of [type] and the decoded [value] alone, with no [raw].
    [BooleanLiteral] returns, on every token, a node with [raw] holding the
    token.  So does [Number] on every token that does not end in [n] and on
    decimal digits followed by [n], [String] on a quoted text without
    escapes, and [RegExp] on a plain pattern with valid flags that the
    engine accepts; and whenever [Number] returns, and [String] or [RegExp]
    on a token that is no program, the node has [raw] holding the token. *)
Theorem VariableName_literal_has_no_raw pattern_ok program :
  (forall h : heap,
     processors.VariableName (CString (str "true")) h
     = (Return (CRef (length h)),
        h ++ [mkObject OPlain [(k_type, VStr "Literal"); (k_value, VBool true)]]))
  /\ (forall h : heap,
        processors.VariableName (CString (str "false")) h
        = (Return (CRef (length h)),
           h ++ [mkObject OPlain [(k_type, VStr "Literal"); (k_value, VBool false)]]))
  /\ (forall h : heap,
        processors.VariableName (CString (str "null")) h
        = (Return (CRef (length h)),
           h ++ [mkObject OPlain [(k_type, VStr "Literal"); (k_value, VNull)]]))
  /\ (forall raw, returns_with_raw (processors.BooleanLiteral raw) raw)
  /\ (forall raw, carries_raw (processors.Number raw) raw)
  /\ (forall r : jsstring,
        ends_with_n r = false ->
        returns_with_raw (processors.Number (CString r)) (CString r))
  /\ (forall ds : jsstring,
        ds <> [] -> Forall is_decimal_digit ds ->
        returns_with_raw (processors.Number (CString (ds ++ str "n")))
          (CString (ds ++ str "n")))
  /\ (forall raw arguments,
        runs_no_program raw ->
        carries_raw (processors.String pattern_ok program raw arguments) raw)
  /\ (forall (q : N) (body : jsstring) arguments,
        q = 34%N \/ q = 39%N ->
        Forall (literal_unit q) body ->
        returns_with_raw
          (processors.String pattern_ok program (CString (q :: body ++ [q])) arguments)
          (CString (q :: body ++ [q])))
  /\ (forall raw arguments,
        runs_no_program raw ->
        carries_raw (processors.RegExp pattern_ok program raw arguments) raw)
  /\ (forall (c : N) (body flags : jsstring) arguments,
        c <> 42%N ->
        Forall pattern_unit (c :: body) ->
        flags_ok flags = true ->
        pattern_ok flags (c :: body) = true ->
        returns_with_raw
          (processors.RegExp pattern_ok program
             (CString (47%N :: (c :: body) ++ 47%N :: flags)) arguments)
          (CString (47%N :: (c :: body) ++ 47%N :: flags))).
Proof.
  split; [|split; [|split]];
    try (intros h; unfold processors.VariableName, bind;
         by rewrite ToString_string).
  split; [|split; [|split; [|split; [|split; [|split; [|split]]]]]].
  - intros raw h. eexists _, _. split; [reflexivity|].
    by rewrite has_field_new, field_new.
  - intros raw h r h' H. unfold processors.Number in H.
    apply bind_Return in H as (s & h1 & _ & H).
    apply bind_Return in H as (v & h2 & _ & H).
    apply new_object_Return in H as [-> ->].
    by rewrite has_field_new, field_new.
  - intros r Hn h. eexists _, _. split; [by apply Number_double|].
    by rewrite has_field_new, field_new.
  - intros ds Hne Hds h. eexists _, _. split.
    + change (str "n") with [110%N]. apply Number_BigInt.
      * by rewrite ends_with_n_snoc.
      * rewrite removelast_last. by apply StringToBigInt_digits.
    + by rewrite has_field_new, field_new.
  - intros raw arguments Hraw h r h' H. unfold processors.String in H.
    apply bind_Return in H as ([v raw'] & h1 & He & H).
    apply (eval_no_program _ _ _ _ _ _ _ _ Hraw) in He as ->.
    apply new_object_Return in H as [-> ->].
    by rewrite has_field_new, field_new.
  - intros q body arguments Hq Hbody h. eexists _, _. split.
    + by apply String_literal_run, scan_string_units.
    + by rewrite has_field_new, field_new.
  - intros raw arguments Hraw h r h' H. unfold processors.RegExp in H.
    apply bind_Return in H as ([v raw'] & h1 & He & H).
    apply (eval_no_program _ _ _ _ _ _ _ _ Hraw) in He as ->.
    apply bind_Return in H as (s & h2 & _ & H).
    apply bind_Return in H as (f & h3 & _ & H).
    apply bind_Return in H as (x & h4 & _ & H).
    apply new_object_Return in H as [-> ->].
    by rewrite has_field_new, field_new.
  - intros c body flags arguments Hstar Hbody Hflags Hpat h. eexists _, _. split.
    + apply RegExp_literal_run; [|done|done].
      apply scan_regexp_closed; [done|by destruct (Forall_inv Hbody)| |].
      * apply (regexp_body_units (c :: body) flags Hbody).
      * by apply flags_ok_flag_units.
    + by apply (raw_of_last h [_; _]).
Qed.

Lemma VariableName_literal_has_no_raw_witness :
  returns_with_raw
    (processors.RegExp any_pattern blank_program (CString (str "/a+/g"))
       [CString (str "/a+/g")])
    (CString (str "/a+/g"))
  /\ carries_raw
       (processors.String any_pattern blank_program (CString (str "'a'"))
          [CString (str "'a'")])
       (CString (str "'a'"))
  /\ returns_with_raw (processors.Number (CString (str "1.5"))) (CString (str "1.5"))
  /\ has_field (processors.VariableName (CString (str "null")) []).2 (CRef 0) k_raw
     = false.
Proof.
  destruct (VariableName_literal_has_no_raw any_pattern blank_program)
    as (_ & _ & Hnull & _ & _ & Hnum & _ & Hstr & _ & _ & Hre).
  split; [|split; [|split]].
  - apply (Hre 97%N (str "+") (str "g"));
      [discriminate | | reflexivity | reflexivity].
    repeat constructor; discriminate.
  - apply Hstr. simpl. discriminate.
  - apply Hnum. reflexivity.
  - by rewrite (Hnull []).
Defined.

(** X17: the empty text, and a text that is one line comment, have no
    value for [eval]: [String] returns a literal whose value is [undefined],
    and [RegExp] throws a TypeError, that of reading [source] of
    [undefined], and allocates nothing. *)
Theorem comment_has_no_value pattern_ok program (text : jsstring)
    (arguments : list child) (h : heap) :
  text = []
  \/ (exists r, text = 47%N :: 47%N :: r
                /\ Forall (fun c => is_line_terminator c = false) r) ->
  processors.String pattern_ok program (CString text) arguments h
  = (Return (CRef (length h)),
     h ++ [mkObject OPlain [(k_type, VStr "Literal"); (k_value, VChild CUndefined);
                            (k_raw, VChild (CString text))]])
  /\ processors.RegExp pattern_ok program (CString text) arguments h
     = (Throw TypeError, h).
Proof.
  intros Htext.
  assert (Hscan : scan text = NoText).
  { destruct Htext as [-> | (r & -> & Hr)]; [done|].
    unfold scan, scan_regexp. cbn [N.eqb Pos.eqb orb].
    assert (Hex : existsb is_line_terminator r = false).
    { induction Hr as [|c r Hc _ IH]; [done|]. simpl. by rewrite Hc. }
    by rewrite Hex. }
  unfold processors.String, processors.RegExp, bind, eval.
  by rewrite Hscan.
Qed.

Lemma comment_has_no_value_witness :
  processors.String any_pattern blank_program (CString (str "// a")) [] []
  = (Return (CRef 0),
     [mkObject OPlain [(k_type, VStr "Literal"); (k_value, VChild CUndefined);
                       (k_raw, VStr "// a")]])
  /\ processors.RegExp any_pattern blank_program (CString (str "// a")) [] []
     = (Throw TypeError, []).
Proof.
  apply (comment_has_no_value any_pattern blank_program (str "// a") [] []).
  right. exists (str " a"). split; [reflexivity|].
  repeat constructor.
Defined.

Lemma digits_from_bad base (c : N) : forall s acc,
  digit_of base c = None -> c ∈ s -> digits_from base acc s = None.
Proof.
  induction s as [|d s IH]; intros acc Hc Hin; [by apply elem_of_nil in Hin|].
  simpl. apply elem_of_cons in Hin as [<- | Hin]; [by rewrite Hc|].
  destruct (digit_of base d); [by apply IH|done].
Qed.

Lemma all_digits_bad base (c : N) s :
  digit_of base c = None -> c ∈ s -> all_digits base s = None.
Proof.
  intros Hc Hin. unfold all_digits. destruct s; [done|]. by eapply digits_from_bad.
Qed.

Lemma drop_while_elem (c : N) : forall s,
  is_space c = false -> c ∈ s -> c ∈ drop_while is_space s.
Proof.
  induction s as [|d s IH]; intros Hc Hin; [done|]. simpl.
  destruct (is_space d) eqn:E; [|done].
  apply elem_of_cons in Hin as [-> | Hin]; [congruence|]. by apply IH.
Qed.

Lemma trim_elem (c : N) s : is_space c = false -> c ∈ s -> c ∈ trim s.
Proof.
  intros Hc Hin. unfold trim.
  apply list_elem_of_In, in_rev, list_elem_of_In. rewrite rev_involutive.
  apply drop_while_elem; [done|].
  apply list_elem_of_In, in_rev. rewrite rev_involutive. apply list_elem_of_In.
  by apply drop_while_elem.
Qed.

(** A separator [_] or a point: no digit in any base, no sign, no prefix
    letter and no space. *)
Lemma StringToBigInt_bad (c : N) s :
  c = 95%N \/ c = 46%N -> c ∈ s -> StringToBigInt s = None.
Proof.
  intros Hc Hin.
  assert (Hsp : is_space c = false) by (by destruct Hc as [-> | ->]).
  assert (Hd : forall base, base = 16%N \/ base = 10%N \/ base = 8%N \/ base = 2%N ->
                 digit_of base c = None).
  { intros base [-> | [-> | [-> | ->]]]; by destruct Hc as [-> | ->]. }
  apply (trim_elem c s Hsp) in Hin. unfold StringToBigInt.
  destruct (trim s) as [|z t] eqn:Et; [by apply elem_of_nil in Hin|].
  destruct (non_decimal (z :: t)) as [r|] eqn:End.
  - unfold non_decimal in End. destruct t as [|p ds]; [done|].
    destruct (N.eqb_spec z 48) as [->|]; [|done]. simpl in End.
    assert (Hds : c ∈ ds).
    { apply elem_of_cons in Hin as [-> | Hin]; [by destruct Hc|].
      apply elem_of_cons in Hin as [-> | Hin]; [|done].
      by destruct Hc as [-> | ->]. }
    destruct (N.eqb p 120 || N.eqb p 88).
    { injection End as <-. apply (all_digits_bad 16 c); auto. }
    destruct (N.eqb p 111 || N.eqb p 79).
    { injection End as <-. apply (all_digits_bad 8 c); auto. }
    destruct (N.eqb p 98 || N.eqb p 66); [|done].
    injection End as <-. apply (all_digits_bad 2 c); auto 6.
  - unfold signed.
    assert (Hbad : forall ds, c ∈ ds ->
              option_map (fun z0 : Z => z0) (all_digits 10 ds) = None
              /\ option_map (fun z0 : Z => (- z0)%Z) (all_digits 10 ds) = None).
    { intros ds Hds. rewrite (all_digits_bad 10 c ds); auto. }
    assert (Ht : z <> c -> c ∈ t).
    { intros Hz. apply elem_of_cons in Hin as [-> | Hin]; done. }
    destruct (N.eqb_spec z 43) as [->|].
    { apply Hbad, Ht. by destruct Hc as [-> | ->]. }
    destruct (N.eqb_spec z 45) as [->|].
    { apply Hbad, Ht. by destruct Hc as [-> | ->]. }
    by apply Hbad.
Qed.

(** X14: a token that ends in [n] and has a separator [_] or a point
    before it is no integer for [BigInt]: [Number] throws a SyntaxError and
    allocates nothing. *)
Theorem Number_rejects_separator_before_n (c : N) (ds : jsstring) (h : heap) :
  c = 95%N \/ c = 46%N -> c ∈ ds ->
  processors.Number (CString (ds ++ str "n")) h = (Throw SyntaxError, h).
Proof.
  intros Hc Hin. unfold processors.Number, bind, strip_n.
  rewrite ToString_string. change (str "n") with [110%N].
  assert (Hn : ends_with_n (ds ++ [110%N]) = true).
  { unfold ends_with_n. by rewrite last_snoc. }
  rewrite Hn, removelast_last. by rewrite (StringToBigInt_bad c).
Qed.

Lemma Number_rejects_separator_before_n_witness :
  processors.Number (CString (str "1_000" ++ str "n")) [] = (Throw SyntaxError, []).
Proof.
  apply (Number_rejects_separator_before_n 95%N (str "1_000") []); [by left|].
  compute_done.
Defined.

(** ** The declaration fold, run again *)

Lemma set_prop_idem k v ps : set_prop k v (set_prop k v ps) = set_prop k v ps.
Proof.
  induction ps as [|[k0 v0] ps IH]; simpl.
  - by rewrite bool_decide_eq_true_2.
  - destruct (bool_decide_reflect (k0 = k)) as [->|Hk]; simpl.
    + by rewrite bool_decide_eq_true_2.
    + by rewrite bool_decide_eq_false_2, IH.
Qed.

Lemma write_inits_idem items (h : heap) :
  NoDup (map fst items) -> write_inits items (write_inits items h) = write_inits items h.
Proof.
  intros Hnd. apply list_eq. intros l.
  destruct (decide (l ∈ map fst items)) as [Hin|Hout].
  - apply list_elem_of_fmap in Hin as ([l0 i] & -> & Hin). simpl.
    rewrite !(write_inits_lookup items _ l0 i) by done.
    destruct (h !! l0) as [o|]; [|done]. simpl. f_equal.
    unfold write_prop. simpl. by rewrite set_prop_idem.
  - by rewrite !write_inits_other.
Qed.

Lemma write_inits_app items : forall (h new : heap),
  Forall (fun it : item => it.1 < length h) items ->
  write_inits items (h ++ new) = write_inits items h ++ new.
Proof.
  induction items as [|[l i] items IH]; intros h new Hlive; [done|].
  apply Forall_cons in Hlive as [Hl Hlive]. simpl in Hl.
  change (write_inits ((l, i) :: items) (h ++ new))
    with (write_inits items (alter (write_prop k_init (init_value i)) l (h ++ new))).
  rewrite alter_app_l by done. rewrite IH; [done|].
  eapply Forall_impl; [exact Hlive|]. intros it Hit. by rewrite length_alter.
Qed.

(** X16: [VariableDeclaration] run a second time on the children of a
    well-formed declaration with pairwise distinct declarators writes to each
    declarator the [init] it already has: the store the first run left is
    kept as it is, and the second run only adds its own array and node. *)
Theorem VariableDeclaration_again
    kind (first : item) (more : list item) (tail : list child) (h : heap) :
  Forall (fun it : item => it.1 < length h) (first :: more) ->
  NoDup (map fst (first :: more)) ->
  is_str (shift tail).1 (str ",") = false ->
  is_str (shift tail).1 (str "=") = false ->
  let tokens := declarator_tokens first more tail in
  let h1 := (processors.VariableDeclaration kind tokens h).2 in
  extends h1 (processors.VariableDeclaration kind tokens h1).2.
Proof.
  intros Hlive Hnd Hcomma Heq tokens h1.
  destruct (VariableDeclaration_folds_every_declarator kind first more tail h
              Hlive Hcomma Heq) as [Hrun _].
  unfold h1, tokens. rewrite Hrun. cbn [snd].
  set (new := [mkObject (OArray (map (fun it : item => CRef it.1) (first :: more))) [];
               mkObject OPlain [(k_type, VStr "VariableDeclaration");
                                (k_kind, VChild kind);
                                (k_declarations, VChild (CRef (length h)))]]).
  assert (Hlive1 : Forall (fun it : item => it.1 < length (write_inits (first :: more) h ++ new))
                     (first :: more)).
  { eapply Forall_impl; [exact Hlive|]. intros it Hit. simpl in Hit.
    rewrite length_app, write_inits_length. lia. }
  destruct (VariableDeclaration_folds_every_declarator kind first more tail _
              Hlive1 Hcomma Heq) as [Hrun1 _].
  rewrite Hrun1. cbn [snd].
  rewrite write_inits_app
    by (eapply Forall_impl; [exact Hlive|]; intros it Hit;
        by rewrite write_inits_length).
  rewrite write_inits_idem by done. by eexists.
Qed.

Lemma VariableDeclaration_again_witness :
  let d := mkObject OPlain [(k_type, VStr "VariableDeclarator")] in
  let tokens := [CRef 1; CString (str "="); CRef 0; CString (str ",");
                 CRef 0; CString (str ";")] in
  let h1 := (processors.VariableDeclaration (CString (str "const")) tokens [d; d]).2 in
  extends h1 (processors.VariableDeclaration (CString (str "const")) tokens h1).2.
Proof.
  intros d tokens h1.
  apply (VariableDeclaration_again (CString (str "const")) (1, Some (CRef 0))
           [(0, None)] [CString (str ";")] [d; d]);
    [ repeat constructor; simpl; lia | compute_done | reflexivity | reflexivity ].
Defined.
